(** * Paperbot (src/main.py): a shallow embedding of the reference index,
    the search index and the chat command handler. *)

From Stdlib Require Import String Ascii List Bool Arith ZArith NArith Lia.
From Stdlib Require Import Sorted Permutation.
Import ListNotations.
Open Scope string_scope.
Open Scope nat_scope.
Open Scope list_scope.

Infix "+++" := String.append (right associativity, at level 60).

(** ** Characters and strings *)

Definition chr (n : nat) : ascii := ascii_of_nat n.

Definition is_digit (c : ascii) : bool :=
  (48 <=? nat_of_ascii c) && (nat_of_ascii c <=? 57).

(** Python's [\s] on ASCII text: [\t\n\v\f\r], the separators [\x1c-\x1f]
    and the space. *)
Definition is_space (c : ascii) : bool :=
  let n := nat_of_ascii c in ((9 <=? n) && (n <=? 13)) || ((28 <=? n) && (n <=? 32)).

(** Python's [.]: any character but the newline. *)
Definition not_newline (c : ascii) : bool := negb (Ascii.eqb c (chr 10)).

Definition is_upper (c : ascii) : bool :=
  (65 <=? nat_of_ascii c) && (nat_of_ascii c <=? 90).

Definition is_lower_c (c : ascii) : bool :=
  (97 <=? nat_of_ascii c) && (nat_of_ascii c <=? 122).

(** [str.lower] and [str.upper] on ASCII text. *)
Definition lower_c (c : ascii) : ascii :=
  if is_upper c then chr (nat_of_ascii c + 32) else c.

Definition upper_c (c : ascii) : ascii :=
  if is_lower_c c then chr (nat_of_ascii c - 32) else c.

Fixpoint str_map (f : ascii -> ascii) (s : string) : string :=
  match s with
  | EmptyString => EmptyString
  | String c t => String (f c) (str_map f t)
  end.

Definition lower (s : string) : string := str_map lower_c s.
Definition upper (s : string) : string := str_map upper_c s.

Fixpoint str_prefix (p s : string) : bool :=
  match p, s with
  | EmptyString, _ => true
  | String a p', String b s' => Ascii.eqb a b && str_prefix p' s'
  | String _ _, EmptyString => false
  end.

(** [needle in haystack] for strings. *)
Fixpoint str_contains (needle hay : string) : bool :=
  str_prefix needle hay ||
  match hay with
  | EmptyString => false
  | String _ t => str_contains needle t
  end.

(** [int(s)] on a string of decimal digits. *)
Fixpoint digits_value_acc (acc : N) (s : string) : N :=
  match s with
  | EmptyString => acc
  | String c t => digits_value_acc (acc * 10 + N.of_nat (nat_of_ascii c - 48))%N t
  end.

Definition digits_value (s : string) : N := digits_value_acc 0%N s.

(** [str(n)] for a natural number. *)
Fixpoint str_of_nat_fuel (fuel n : nat) (acc : string) : string :=
  match fuel with
  | O => acc
  | S f =>
      let acc' := String (ascii_of_nat (48 + n mod 10)) acc in
      if n <? 10 then acc' else str_of_nat_fuel f (n / 10) acc'
  end.

Definition str_of_nat (n : nat) : string := str_of_nat_fuel (S n) n EmptyString.

(** [sep.join(items)]. *)
Fixpoint join (sep : string) (items : list string) : string :=
  match items with
  | [] => EmptyString
  | [x] => x
  | x :: rest => x +++ sep +++ join sep rest
  end.

(** ** A backtracking regular expression matcher

    [run r s] lists the ways [r] matches a prefix of [s] in the order in which
    Python's backtracking engine tries them (alternatives left to right,
    greedy repetition longest first), each with its captured groups and the
    unconsumed rest. The first element is the match [re.match] returns. *)
Inductive regex : Type :=
| RChr (p : ascii -> bool)          (* one character of a class *)
| RSeq (r1 r2 : regex)
| RAlt (r1 r2 : regex)
| ROpt (r : regex)                  (* r?, greedy *)
| RPlus (p : ascii -> bool)         (* [class]+, greedy *)
| RGroup (n : nat) (r : regex).     (* capturing group n *)

Definition captures := list (nat * string).

Fixpoint plus_rests (p : ascii -> bool) (s : string) : list string :=
  match s with
  | EmptyString => []
  | String c t => if p c then plus_rests p t ++ [t] else []
  end.

(** The text consumed from [s] when [t] is left. *)
Definition consumed (s t : string) : string :=
  substring 0 (String.length s - String.length t) s.

Fixpoint run (r : regex) (s : string) : list (captures * string) :=
  match r with
  | RChr p =>
      match s with
      | String c t => if p c then [([], t)] else []
      | EmptyString => []
      end
  | RSeq r1 r2 =>
      flat_map (fun m1 => map (fun m2 => (fst m1 ++ fst m2, snd m2)) (run r2 (snd m1)))
               (run r1 s)
  | RAlt r1 r2 => run r1 s ++ run r2 s
  | ROpt r1 => run r1 s ++ [([], s)]
  | RPlus p => map (fun t => ([], t)) (plus_rests p s)
  | RGroup n r1 => map (fun m => ((n, consumed s (snd m)) :: fst m, snd m)) (run r1 s)
  end.

Definition lit_char (a : ascii) : regex := RChr (fun c => Ascii.eqb c a).

(** A literal string. *)
Fixpoint RLit (w : string) : regex :=
  match w with
  | EmptyString => RPlus (fun _ => false)  (* unused: literals are non-empty *)
  | String a EmptyString => lit_char a
  | String a t => RSeq (lit_char a) (RLit t)
  end.

Definition group (n : nat) (cs : captures) : option string :=
  match find (fun kv => Nat.eqb (fst kv) n) cs with
  | Some (_, v) => Some v
  | None => None
  end.

Definition group_or_empty (n : nat) (cs : captures) : string :=
  match group n cs with Some v => v | None => EmptyString end.

(** [pattern.match(s)]: the first way the pattern matches a prefix. *)
Definition re_match (r : regex) (s : string) : option (captures * string) :=
  hd_error (run r s).

(** [pattern.search(s)]: the first position where the pattern matches. *)
Fixpoint re_search (r : regex) (s : string) : option (captures * string) :=
  match re_match r s with
  | Some m => Some m
  | None => match s with
            | EmptyString => None
            | String _ t => re_search r t
            end
  end.

(** [pattern.finditer(s)]: successive non-overlapping matches, scanning left
    to right; each result carries its groups, group 0 being the whole match.
    The patterns of the program never match the empty string. *)
Fixpoint finditer_fuel (fuel : nat) (r : regex) (s : string) : list captures :=
  match fuel with
  | O => []
  | S f =>
      match re_match (RGroup 0 r) s with
      | Some (cs, rest) =>
          if String.length rest <? String.length s
          then cs :: finditer_fuel f r rest
          else match s with
               | EmptyString => [cs]
               | String _ t => cs :: finditer_fuel f r t
               end
      | None =>
          match s with
          | EmptyString => []
          | String _ t => finditer_fuel f r t
          end
      end
  end.

Definition finditer (r : regex) (s : string) : list captures :=
  finditer_fuel (S (String.length s)) r s.

(** ** The revision resolver (PaperIndex.reference_and_revision_regex and
    extract_reference__and_revision_from_id) *)

(** [re.compile(r'(.+)R(\d+)')] *)
Definition reference_and_revision_regex : regex :=
  RSeq (RGroup 1 (RPlus not_newline))
       (RSeq (lit_char "R"%char) (RGroup 2 (RPlus is_digit))).

(** [m = regex.match(id); (m.group(1), int(m.group(2))) if m else (id, 0)] *)
Definition extract_reference_and_revision_from_id (id : string) : string * N :=
  match re_match reference_and_revision_regex id with
  | Some (cs, _) => (group_or_empty 1 cs, digits_value (group_or_empty 2 cs))
  | None => (id, 0%N)
  end.

(** ** Exceptions and fallible computations *)

Inductive exn : Type :=
| KeyError
| TypeError
| IndexError
| AttributeError
| StopIteration
| FeedUnavailable          (* a failure of the HTTP request for the feed *)
| SystemExit (code : Z).

Inductive result (A : Type) : Type :=
| Ok (a : A)
| Err (e : exn).
Arguments Ok {A} a.
Arguments Err {A} e.

Definition rbind {A B} (m : result A) (k : A -> result B) : result B :=
  match m with Ok a => k a | Err e => Err e end.

Notation "x <- m ;; k" := (rbind m (fun x => k))
  (at level 61, m at next level, right associativity).

(** ** Python dicts: insertion-ordered association lists

    Assigning an existing key keeps its position; a new key goes last. *)
Definition dict (V : Type) := list (string * V).

Fixpoint dget {V} (k : string) (d : dict V) : option V :=
  match d with
  | [] => None
  | (k', v) :: t => if String.eqb k k' then Some v else dget k t
  end.

Definition dmem {V} (k : string) (d : dict V) : bool :=
  match dget k d with Some _ => true | None => false end.

Fixpoint dset {V} (k : string) (v : V) (d : dict V) : dict V :=
  match d with
  | [] => [(k, v)]
  | (k', v') :: t => if String.eqb k k' then (k, v) :: t else (k', v') :: dset k v t
  end.

(** [d[k]] *)
Definition dindex {V} (k : string) (d : dict V) : result V :=
  match dget k d with Some v => Ok v | None => Err KeyError end.

(** ** Document records of the feed

    A record is a JSON object; a field the object lacks is [None], so that
    [info['x']] raises [KeyError] and ['x' in info] is [false]. *)
Record info : Type := mk_info {
  i_type : option string;
  i_title : option string;
  i_author : option string;
  i_submitter : option string;
  i_date : option string;
  i_section : option string;
  i_subgroup : option string;
  i_issues : option (list string);
  i_papers : option (list string);
  i_github_url : option string;
  i_long_link : option string
}.

Definition field (f : option string) : result string :=
  match f with Some v => Ok v | None => Err KeyError end.

Definition field_or_empty (f : option string) : string :=
  match f with Some v => v | None => EmptyString end.

(** A value of a reference group: a record under a document id, or, under
    the key ['_'], the id of the latest revision. *)
Inductive slot : Type :=
| SRecord (r : info)
| SLatest (id : string).

Definition group_t := dict slot.
Definition index_t := dict group_t.

(** The feed payload: document id to record, in the payload's order. *)
Definition payload := list (string * info).

Definition latest_key : string := "_".

(** ** PaperIndex._rebuild_index *)

(** One iteration of the loop over [index_payload.items()]. Line 58 reads
    [_, latest_revision = (extract(g['_']) if '_' in g else None), 0]:
    the conditional is the first component of a pair, so [latest_revision]
    is always [0]; the conditional is still evaluated, and [re.match] on a
    record (when [g['_']] holds one) raises [TypeError]. *)
Definition rebuild_step (updated_index : index_t) (entry : string * info)
  : result index_t :=
  let (id, inf) := entry in
  let (reference, revision) := extract_reference_and_revision_from_id id in
  let idx1 := if dmem reference updated_index then updated_index
              else dset reference [] updated_index in
  let grp0 := match dget reference idx1 with Some g => g | None => [] end in
  let grp1 := dset id (SRecord inf) grp0 in
  _ <- match dget latest_key grp1 with
       | Some (SLatest l) => Ok (Some (extract_reference_and_revision_from_id l))
       | Some (SRecord _) => Err TypeError
       | None => Ok None
       end ;;
  let latest_revision := 0%N in
  let grp2 := if (latest_revision <=? revision)%N
              then dset latest_key (SLatest id) grp1 else grp1 in
  Ok (dset reference grp2 idx1).

Fixpoint rebuild_loop (updated_index : index_t) (p : payload) : result index_t :=
  match p with
  | [] => Ok updated_index
  | e :: rest => idx <- rebuild_step updated_index e ;; rebuild_loop idx rest
  end.

Definition rebuild_index (p : payload) : result index_t := rebuild_loop [] p.

(** ** PaperIndex.fetch_info_for, after its refresh: the lookup in the index *)

Definition extract_reference_and_key_from_ref_or_id (idx : index_t) (r : string)
  : result (string * string) :=
  match re_match reference_and_revision_regex r with
  | Some (cs, _) => Ok (group_or_empty 1 cs, r)
  | None =>
      match dget r idx with
      | Some g =>
          match dget latest_key g with
          | Some (SLatest l) => Ok (r, l)
          | Some (SRecord _) => Err TypeError  (* a record as a key: unhashable *)
          | None => Err KeyError
          end
      | None => Ok (r, latest_key)
      end
  end.

Definition lookup_info (idx : index_t) (r : string) : result (string * option slot) :=
  rk <- extract_reference_and_key_from_ref_or_id idx r ;;
  let (reference, key) := rk in
  match dget reference idx with
  | Some g => match dget key g with
              | Some v => Ok (key, Some v)
              | None => Ok (r, None)
              end
  | None => Ok (r, None)
  end.

(** ** datetime.strptime for the formats of get_date

    A format is compiled as [_strptime.TimeRE] does: a directive becomes
    its pattern, a run of whitespace becomes [\s+], any other character
    matches itself; the whole pattern is case-insensitive. The match must
    consume the whole string ("unconverted data remains" otherwise), and
    the date must exist (datetime raises ValueError otherwise). A failure
    is [None]. A datetime is ordered as the number [y * 10000 + m * 100 + d]. *)

Definition datetime := Z.

Definition mk_datetime (y m d : Z) : datetime := (y * 10000 + m * 100 + d)%Z.

Definition epoch : datetime := mk_datetime 1970 1 1.

Definition char_in (w : string) (c : ascii) : bool :=
  existsb (fun a => Ascii.eqb a c) (list_ascii_of_string w).

Definition cls (w : string) : regex := RChr (char_in w).

Definition digit : regex := RChr is_digit.

(** Literal text under IGNORECASE. *)
Fixpoint lit_ci (w : string) : regex :=
  match w with
  | EmptyString => RPlus (fun _ => false)
  | String a EmptyString => RChr (fun c => Ascii.eqb (lower_c c) (lower_c a))
  | String a t => RSeq (RChr (fun c => Ascii.eqb (lower_c c) (lower_c a))) (lit_ci t)
  end.

Fixpoint alts (rs : list regex) : regex :=
  match rs with
  | [] => RPlus (fun _ => false)
  | [r] => r
  | r :: t => RAlt r (alts t)
  end.

Definition g_Y := 1%nat.
Definition g_m := 2%nat.
Definition g_d := 3%nat.
Definition g_B := 4%nat.
Definition g_b := 5%nat.

(** [(?P<d>3[0-1]|[1-2]\d|0[1-9]|[1-9]| [1-9])] *)
Definition re_d : regex :=
  RGroup g_d (alts [RSeq (lit_char "3") (cls "01");
                    RSeq (cls "12") digit;
                    RSeq (lit_char "0") (cls "123456789");
                    cls "123456789";
                    RSeq (lit_char " ") (cls "123456789")]).

(** [(?P<m>1[0-2]|0[1-9]|[1-9])] *)
Definition re_m : regex :=
  RGroup g_m (alts [RSeq (lit_char "1") (cls "012");
                    RSeq (lit_char "0") (cls "123456789");
                    cls "123456789"]).

(** [(?P<Y>\d\d\d\d)] *)
Definition re_Y : regex := RGroup g_Y (RSeq digit (RSeq digit (RSeq digit digit))).

(** [locale_time.f_month] and [a_month] of the C locale, without the leading
    empty entry. *)
Definition f_month : list string :=
  ["january"; "february"; "march"; "april"; "may"; "june"; "july";
   "august"; "september"; "october"; "november"; "december"].
Definition a_month : list string :=
  ["jan"; "feb"; "mar"; "apr"; "may"; "jun"; "jul"; "aug"; "sep"; "oct"; "nov"; "dec"].

(** [__seqToRE]: the names longest first (a stable sort by length). *)
Fixpoint insert_by_len (w : string) (l : list string) : list string :=
  match l with
  | [] => [w]
  | x :: t => if String.length x <? String.length w then w :: x :: t
              else x :: insert_by_len w t
  end.

Definition by_len_desc (l : list string) : list string :=
  fold_left (fun acc w => insert_by_len w acc) l [].

Definition re_B : regex := RGroup g_B (alts (map lit_ci (by_len_desc f_month))).
Definition re_b : regex := RGroup g_b (alts (map lit_ci (by_len_desc a_month))).

Definition directive (c : ascii) : option regex :=
  if Ascii.eqb c "d" then Some re_d
  else if Ascii.eqb c "m" then Some re_m
  else if Ascii.eqb c "Y" then Some re_Y
  else if Ascii.eqb c "B" then Some re_B
  else if Ascii.eqb c "b" then Some re_b
  else None.

(** [re.sub(r'\s+', r'\\s+', format)]: a run of whitespace becomes one
    whitespace character, compiled to [\s+] below. *)
Fixpoint collapse_ws (prev_space : bool) (f : list ascii) : list ascii :=
  match f with
  | [] => []
  | c :: t =>
      if is_space c then (if prev_space then collapse_ws true t else c :: collapse_ws true t)
      else c :: collapse_ws false t
  end.

(** TimeRE.pattern for the directives above; [None] for a format it does
    not cover. *)
Fixpoint compile_format_items (f : list ascii) : option (list regex) :=
  match f with
  | [] => Some []
  | "%"%char :: d :: t =>
      match directive d, compile_format_items t with
      | Some r, Some rs => Some (r :: rs)
      | _, _ => None
      end
  | c :: t =>
      match compile_format_items t with
      | Some rs =>
          Some ((if is_space c then RPlus is_space
                 else RChr (fun x => Ascii.eqb (lower_c x) (lower_c c))) :: rs)
      | None => None
      end
  end.

Fixpoint seq_all (rs : list regex) : regex :=
  match rs with
  | [] => RPlus (fun _ => false)
  | [r] => r
  | r :: t => RSeq r (seq_all t)
  end.

Definition compile_format (fmt : string) : option regex :=
  match compile_format_items (collapse_ws false (list_ascii_of_string fmt)) with
  | Some rs => Some (seq_all rs)
  | None => None
  end.

(** [int(s)]: [int] skips the leading blank of the [ [1-9]] alternative. *)
Fixpoint drop_spaces (s : string) : string :=
  match s with
  | String c t => if is_space c then drop_spaces t else s
  | EmptyString => EmptyString
  end.

Definition int_of (s : string) : Z := Z.of_N (digits_value (drop_spaces s)).

Fixpoint index_of (w : string) (l : list string) : option nat :=
  match l with
  | [] => None
  | x :: t => if String.eqb x w then Some 0 else option_map S (index_of w t)
  end.

(** [locale_time.f_month.index(name.lower())]; the list has [''] at 0. *)
Definition month_of_name (names : list string) (w : string) : Z :=
  match index_of (lower w) names with
  | Some i => Z.of_nat (S i)
  | None => 0%Z
  end.

Definition is_leap (y : Z) : bool :=
  (Z.eqb (y mod 4) 0 && negb (Z.eqb (y mod 100) 0)) || Z.eqb (y mod 400) 0.

Definition days_in_month (y m : Z) : Z :=
  if Z.eqb m 2 then (if is_leap y then 29 else 28)
  else if existsb (Z.eqb m) [4; 6; 9; 11]%Z then 30 else 31.

(** [datetime_date(year, month, day)] succeeds. *)
Definition valid_date (y m d : Z) : bool :=
  (1 <=? y)%Z && (y <=? 9999)%Z && (1 <=? m)%Z && (m <=? 12)%Z &&
  (1 <=? d)%Z && (d <=? days_in_month y m)%Z.

Definition strptime (value fmt : string) : option datetime :=
  match compile_format fmt with
  | None => None
  | Some r =>
      match re_match r value with
      | None => None
      | Some (cs, rest) =>
          if negb (String.eqb rest EmptyString) then None
          else
            let year := match group g_Y cs with Some v => int_of v | None => 1900%Z end in
            let month :=
              match group g_m cs with
              | Some v => int_of v
              | None =>
                  match group g_B cs with
                  | Some v => month_of_name f_month v
                  | None => match group g_b cs with
                            | Some v => month_of_name a_month v
                            | None => 1%Z
                            end
                  end
              end in
            let day := match group g_d cs with Some v => int_of v | None => 1%Z end in
            if valid_date year month day then Some (mk_datetime year month day) else None
      end
  end.

(** ** PaperIndex._rebuild_search_index *)

Definition accepted_formats : list string :=
  ["%Y-%m-%d"; "%d %b %Y"; "%d %B %Y"; "%B %Y"; "%d %B, %Y"; "%d %b, %Y"].

(** The [for ... try ... except ValueError: pass] loop. *)
Fixpoint first_parse (value : string) (fmts : list string) : option datetime :=
  match fmts with
  | [] => None
  | f :: t => match strptime value f with
              | Some d => Some d
              | None => first_parse value t
              end
  end.

(** [get_date]; the fallback is [strptime('1970-01-01', '%Y-%m-%d')]. *)
Definition get_date (entry : info) : datetime :=
  let date_value := match i_date entry with Some d => d | None => EmptyString end in
  match first_parse date_value accepted_formats with
  | Some d => d
  | None => epoch
  end.

Record search_entry : Type := mk_entry {
  e_id : string;
  e_type : string;
  e_date : datetime;
  e_keywords : string
}.

(** ['{} {} {} {} {}'.format(key, data['title'], section, submitter, author)] *)
Definition keyword_item (key : string) (data : slot) : result string :=
  match data with
  | SRecord d =>
      t <- field (i_title d) ;;
      Ok (key +++ " " +++ t +++ " " +++ field_or_empty (i_section d) +++ " "
              +++ field_or_empty (i_submitter d) +++ " " +++ field_or_empty (i_author d))
  | SLatest _ => Err TypeError  (* indexing a str with a str *)
  end.

Fixpoint keyword_items (document : group_t) : result (list string) :=
  match document with
  | [] => Ok []
  | (key, data) :: t =>
      if String.eqb key latest_key then keyword_items t
      else s <- keyword_item key data ;; rest <- keyword_items t ;; Ok (s :: rest)
  end.

Definition make_entry (reference : string) (document : group_t) : result search_entry :=
  l <- dindex latest_key document ;;
  match l with
  | SRecord _ => Err TypeError  (* a record as a key: unhashable *)
  | SLatest lid =>
      r <- dindex lid document ;;
      match r with
      | SLatest _ => Err TypeError
      | SRecord inf =>
          ty <- field (i_type inf) ;;
          items <- keyword_items document ;;
          Ok (mk_entry reference ty (get_date inf) (lower (join " " items)))
      end
  end.

Fixpoint rebuild_search_index (idx : index_t) : result (list search_entry) :=
  match idx with
  | [] => Ok []
  | (reference, document) :: t =>
      e <- make_entry reference document ;;
      rest <- rebuild_search_index t ;;
      Ok (e :: rest)
  end.

(** ** PaperIndex.search *)

Definition matches_search (keywords : list string) (ty : option string)
  (entry : search_entry) : bool :=
  forallb (fun keyword => str_contains keyword (e_keywords entry)) keywords &&
  match ty with None => true | Some t => String.eqb (e_type entry) t end.

(** [sorted(..., key=date, reverse=True)]: a stable sort, most recent first,
    equal dates keeping their order. *)
Fixpoint insert_desc (e : search_entry) (l : list search_entry) : list search_entry :=
  match l with
  | [] => [e]
  | x :: t => if (e_date x <=? e_date e)%Z then e :: x :: t else x :: insert_desc e t
  end.

Fixpoint sort_desc (l : list search_entry) : list search_entry :=
  match l with
  | [] => []
  | x :: t => insert_desc x (sort_desc t)
  end.

Definition search (search_index : list search_entry) (keywords : list string)
  (ty : option string) : list search_entry :=
  sort_desc (filter (matches_search keywords ty) search_index).

(** ** PaperIndex state and refresh *)

Record paper_index : Type := mk_paper_index {
  pi_index : index_t;
  pi_search_index : list search_entry
}.

(** [_try_refresh_index]: fetch the feed, rebuild both indexes. *)
Definition try_refresh_index (feed : result payload) : result paper_index :=
  p <- feed ;;
  idx <- rebuild_index p ;;
  sidx <- rebuild_search_index idx ;;
  Ok (mk_paper_index idx sidx).

(** [fetch_info_for]: refresh, then look the reference up. *)
Definition fetch_info_for (feed : result payload) (r : string)
  : result (string * option slot) :=
  pi <- try_refresh_index feed ;;
  lookup_info (pi_index pi) r.

(** ** Reply formatters (MessageFormatter and its subclasses) *)

(** [s.replace(c, by)] for a one-character [c]. *)
Fixpoint replace_char (c : ascii) (by_ : string) (s : string) : string :=
  match s with
  | EmptyString => EmptyString
  | String x t => if Ascii.eqb x c then by_ +++ replace_char c by_ t
                  else String x (replace_char c by_ t)
  end.

Definition backslash : string := String (chr 92) EmptyString.

Definition escape_text (text : string) : string :=
  replace_char ")" (backslash +++ ")")
    (replace_char "(" (backslash +++ "(")
      (replace_char "]" (backslash +++ "]")
        (replace_char "[" (backslash +++ "[") text))).

Definition create_link (text url : string) : string :=
  "[" +++ escape_text text +++ "](" +++ url +++ ")".

(** [s.split(sep)] for a non-empty separator. *)
Fixpoint split_on_acc (sep : string) (cur : string) (s : string) (fuel : nat)
  : list string :=
  match fuel with
  | O => [cur +++ s]
  | S f =>
      match s with
      | EmptyString => [cur]
      | String c t =>
          if str_prefix sep s
          then cur :: split_on_acc sep EmptyString
                        (substring (String.length sep) (String.length s) s) f
          else split_on_acc sep (cur +++ String c EmptyString) t f
      end
  end.

Definition split_on (sep s : string) : list string :=
  split_on_acc sep EmptyString s (S (String.length s)).

Definition get_authors (inf : info) : result string :=
  a <- field (i_author inf) ;;
  let authors := split_on ", " a in
  if List.length authors <=? 2 then Ok (join ", " authors)
  else Ok (hd EmptyString authors +++ " et al.").

Definition subgroup_map : list (string * string) :=
  [("Core", "CWG"); ("Evolution", "EWG"); ("Library", "LWG");
   ("Library Evolution", "LEWG"); ("Direction Group", "DG");
   ("Library Evolution Incubator", "LEWGI"); ("Evolution Incubator", "EWGI")].

Definition translate_subgroup (subgroup : string) : string :=
  match dget subgroup subgroup_map with Some v => v | None => subgroup end.

Definition get_audience (inf : info) : result string :=
  s <- field (i_subgroup inf) ;;
  Ok (join ", " (map translate_subgroup (split_on ", " s))).

(** The subclasses; only PaperMessageFormatter has [github_issue_no_regex]. *)
Inductive formatter_kind : Type :=
| IssueFormatter
| PaperFormatter
| EditorialFormatter
| StandingDocumentFormatter
| NotFoundFormatter.

(** [re.compile(r'/issues/(\d+)')] *)
Definition github_issue_no_regex : regex :=
  RSeq (RLit "/issues/") (RGroup 1 (RPlus is_digit)).

Definition github_component (k : formatter_kind) (inf : info) : result (list string) :=
  match i_github_url inf with
  | None => Ok []
  | Some url =>
      match k with
      | PaperFormatter =>
          match re_search github_issue_no_regex url with
          | Some (cs, _) =>
              Ok ["Github issue: " +++ create_link ("#" +++ group_or_empty 1 cs) url]
          | None => Err AttributeError  (* None.group(1) *)
          end
      | _ => Err AttributeError  (* self.github_issue_no_regex is undefined *)
      end
  end.

Definition related_component (singular plural : string) (refs : option (list string))
  : list string :=
  match refs with
  | None => []
  | Some l =>
      [(if List.length l =? 1 then singular else plural) +++
       join ", " (map (fun r => create_link r ("https://wg21.link/" +++ r)) l)]
  end.

Definition related_issues_component (inf : info) : list string :=
  related_component "Related issue: " "Related issues: " (i_issues inf).

Definition related_papers_component (inf : info) : list string :=
  related_component "Related paper: " "Related papers: " (i_papers inf).

Definition format_message_components (components : list string) : string :=
  join " | " components.

Definition issue_paper_link_component (reference : string) (inf : info)
  : result (list string) :=
  title <- field (i_title inf) ;;
  submitter <- field (i_submitter inf) ;;
  let text := "[" +++ reference +++ "] " +++ title in
  let extra_info := "submitted by " +++ submitter +++
    match i_date inf with Some d => " (" +++ d +++ ")" | None => EmptyString end in
  long_link <- field (i_long_link inf) ;;
  Ok [create_link text long_link +++ " " +++ extra_info].

Definition section_component (inf : info) : list string :=
  match i_section inf with Some s => ["Section: " +++ s] | None => [] end.

Definition paper_paper_link_component (reference : string) (inf : info)
  : result (list string) :=
  title <- field (i_title inf) ;;
  audience <- (match i_subgroup inf with
               | Some _ => a <- get_audience inf ;; Ok (" " +++ a +++ ":")
               | None => Ok EmptyString
               end) ;;
  let text := "[" +++ reference +++ "]" +++ audience +++ " " +++ title in
  by_authors <- (match i_author inf with
                 | Some _ => a <- get_authors inf ;; Ok (" by " +++ a)
                 | None => Ok EmptyString
                 end) ;;
  let extra_info := by_authors +++
    match i_date inf with Some d => " (" +++ d +++ ")" | None => EmptyString end in
  long_link <- field (i_long_link inf) ;;
  Ok [create_link text long_link +++ extra_info].

Definition plain_link_component (reference : string) (inf : info) : result (list string) :=
  title <- field (i_title inf) ;;
  long_link <- field (i_long_link inf) ;;
  Ok [create_link ("[" +++ reference +++ "] " +++ title) long_link].

Definition format_message (k : formatter_kind) (reference : string) (inf : info)
  : result string :=
  match k with
  | IssueFormatter =>
      l <- issue_paper_link_component reference inf ;;
      g <- github_component k inf ;;
      Ok (format_message_components
            (":speech_balloon:" :: l ++ section_component inf ++ g
                                 ++ related_papers_component inf))
  | PaperFormatter =>
      l <- paper_paper_link_component reference inf ;;
      g <- github_component k inf ;;
      Ok (format_message_components
            (":rolled_up_newspaper:" :: l ++ g ++ related_issues_component inf))
  | EditorialFormatter =>
      l <- plain_link_component reference inf ;;
      Ok (format_message_components (":lower_left_ballpoint_pen: " :: l))
  | StandingDocumentFormatter =>
      l <- plain_link_component reference inf ;;
      Ok (format_message_components (":compass:" :: l))
  | NotFoundFormatter =>
      Ok (format_message_components
            [":mag:"; "Sorry, I could not find an issue or paper called `" +++ reference
                       +++ "` :worried:"])
  end.

(** [MessageFormatterFactory.create_from_info(reference, info).format_message()] *)
Definition create_and_format (reference : string) (v : option slot) : result string :=
  match v with
  | None => format_message NotFoundFormatter reference
              (mk_info None None None None None None None None None None None)
  | Some (SLatest _) => Err TypeError  (* str['type'] *)
  | Some (SRecord inf) =>
      ty <- field (i_type inf) ;;
      k <- (if String.eqb ty "issue" then Ok IssueFormatter
            else if String.eqb ty "paper" then Ok PaperFormatter
            else if String.eqb ty "editorial" then Ok EditorialFormatter
            else if String.eqb ty "standing-document" then Ok StandingDocumentFormatter
            else Err KeyError) ;;
      format_message k reference inf
  end.

(** ** ChatCommandHandler *)

(** [(?:(C|E|LE?)WG|FS|SD|N|P|D|EDIT)], its inner group numbered [n]. *)
Definition ref_prefix (n : nat) : regex :=
  alts [RSeq (RGroup n (alts [lit_char "C"; lit_char "E";
                              RSeq (lit_char "L") (ROpt (lit_char "E"))]))
             (RLit "WG");
        RLit "FS"; RLit "SD"; lit_char "N"; lit_char "P"; lit_char "D"; RLit "EDIT"].

(** [<prefix> ?\d+(R\d+)?], the revision group numbered [n]. *)
Definition ref_body (n_prefix n_rev : nat) : regex :=
  RSeq (ref_prefix n_prefix)
    (RSeq (ROpt (lit_char " "))
      (RSeq (RPlus is_digit)
            (ROpt (RGroup n_rev (RSeq (lit_char "R") (RPlus is_digit)))))).

(** [r'(?:(C|E|LE?)WG|FS|SD|N|P|D|EDIT) ?\d+(R\d+)?'] *)
Definition reference_mention_regex : regex := ref_body 1 2.

(** [r'\[((?:(C|E|LE?)WG|FS|SD|N|P|D|EDIT) ?\d+(R\d+)?)]'] *)
Definition reference_brackets_regex : regex :=
  RSeq (lit_char "[") (RSeq (RGroup 1 (ref_body 2 3)) (lit_char "]")).

(** [r'[\s,\.;:!\?]+'] *)
Definition is_token_sep (c : ascii) : bool := is_space c || char_in ",.;:!?" c.

(** [split_command_token_regex.split(s)]: the pieces between maximal runs of
    separators, with an empty first (last) piece when [s] starts (ends) with
    a separator. *)
Fixpoint split_pieces (cur : string) (in_sep : bool) (s : string) : list string :=
  match s with
  | EmptyString => [cur]
  | String c t =>
      if is_token_sep c
      then (if in_sep then split_pieces cur true t
            else cur :: split_pieces EmptyString true t)
      else split_pieces (cur +++ String c EmptyString) false t
  end.

Definition rstrip (s : string) : string :=
  string_of_list_ascii (rev (list_ascii_of_string
    (drop_spaces (string_of_list_ascii (rev (list_ascii_of_string s)))))).

Definition strip (s : string) : string := rstrip (drop_spaces s).

(** [list(filter(lambda token: len(token.strip()) >= 1, regex.split(message)))] *)
Definition command_tokens (message : string) : list string :=
  filter (fun token => 1 <=? String.length (strip token))
         (split_pieces EmptyString false message).

Record user : Type := mk_user {
  u_id : string;
  u_username : string;
  u_nickname : string;
  u_first_name : string;
  u_last_name : string
}.

Record post : Type := mk_post {
  p_id : string;
  p_channel_id : string;
  p_root_id : string;
  p_user_id : string;
  p_message : string;
  p_create_at : Z;   (* milliseconds *)
  p_update_at : Z
}.

Record channel : Type := mk_channel {
  c_id : string;
  c_type : string;
  c_display_name : string
}.

(** What the handler observes during one poll cycle: the bot's own user, the
    clock, the users and channels of the chat service, what the feed serves,
    the paper index as last refreshed, and the iteration order CPython gives
    a set of strings (it depends on string hashing). *)
Record env : Type := mk_env {
  env_me : user;
  env_now_us : Z;                      (* datetime.now(), in microseconds *)
  env_get_user : string -> user;       (* driver.users.get_user(user_id=...) *)
  env_channels : list channel;         (* ChatMessageService._channels *)
  env_feed : result payload;           (* what each request of the feed returns *)
  env_paper_index : paper_index;       (* PaperIndex state: _index, _search_index *)
  env_set_order : list string -> list string
}.

(** Observable effects: posts created through the driver, and printed lines. *)
Inductive event : Type :=
| EPost (channel_id root_id message : string)
| EPrint (line : string)
| EPrintPost (p : post)
| EPrintTokens (tokens : list string).

(** Computations that print and post, and may raise: the events emitted up
    to the point where an exception escapes stay emitted. *)
Definition M (A : Type) : Type := (list event * result A)%type.

Definition ret {A} (a : A) : M A := ([], Ok a).

Definition mbind {A B} (m : M A) (k : A -> M B) : M B :=
  match snd m with
  | Ok a => let m2 := k a in (fst m ++ fst m2, snd m2)
  | Err e => (fst m, Err e)
  end.

Notation "x <-- m ;;; k" := (mbind m (fun x => k))
  (at level 61, m at next level, right associativity).

Definition lift {A} (r : result A) : M A := ([], r).
Definition emit (e : event) : M unit := ([e], Ok tt).
Definition raise {A} (e : exn) : M A := ([], Err e).

(** [try: m except KeyError: handler] *)
Definition try_keyerror {A} (m : M A) (handler : M A) : M A :=
  match snd m with
  | Err KeyError => let h := handler in (fst m ++ fst h, snd h)
  | _ => m
  end.

Definition nickname_of (u : user) : string :=
  if String.eqb (u_nickname u) EmptyString then "(none)" else u_nickname u.

Definition display_name_of (u : user) : string :=
  if String.eqb (u_first_name u) EmptyString then "(none)"
  else u_first_name u +++ " " +++ u_last_name u.

(** ChatMessageService.reply_to *)
Definition reply_to (original_post : post) (reply : string) : M unit :=
  _ <-- emit (EPrintPost original_post) ;;;
  emit (EPost (p_channel_id original_post)
              (if String.eqb (p_root_id original_post) EmptyString
               then p_id original_post else p_root_id original_post)
              reply).

Definition collect_references_from_message (p : post)
  (collect_references_without_brackets : bool) : list string :=
  (if collect_references_without_brackets
   then map (group_or_empty 0) (finditer reference_mention_regex (upper (p_message p)))
   else []) ++
  map (group_or_empty 1) (finditer reference_brackets_regex (upper (p_message p))).

(** [set([r.replace(' ', '') for r in references])], as a duplicate-free
    list; the handler iterates it in [env_set_order]. *)
Fixpoint dedup (l : list string) : list string :=
  match l with
  | [] => []
  | x :: t => if existsb (String.eqb x) t then dedup t else x :: dedup t
  end.

Definition deduplicate (references : list string) : list string :=
  dedup (map (replace_char " " EmptyString) references).

Section Handler.

Variable e : env.

(** The body of the loop of [_handle_paper_request]: one reference. *)
Definition paper_reply_component (requested_reference : string) : M (list string) :=
  try_keyerror
    (lift (kv <- fetch_info_for (env_feed e) requested_reference ;;
           s <- create_and_format (fst kv) (snd kv) ;;
           Ok [s]))
    (_ <-- emit (EPrint ("Formatting document " +++ requested_reference +++ " failed")) ;;;
     ret []).

Fixpoint paper_reply_components (refs : list string) : M (list string) :=
  match refs with
  | [] => ret []
  | r :: t =>
      c <-- paper_reply_component r ;;;
      rest <-- paper_reply_components t ;;;
      ret (c ++ rest)
  end.

Definition handle_paper_request (tokens : list string) (p : post) (u : user)
  (collect_references_without_brackets : bool) : M unit :=
  let references := collect_references_from_message p collect_references_without_brackets in
  reply_components <-- paper_reply_components (env_set_order e (deduplicate references)) ;;;
  reply_to p (join (String (chr 10) EmptyString) reply_components).

Definition do_help (tokens : list string) (p : post) (u : user) : M unit :=
  _ <-- emit (EPrint ("Help requested by " +++ display_name_of u +++ " - " +++
                      nickname_of u +++ " (" +++ u_username u +++ ")")) ;;;
  let b := u_username (env_me e) in
  let nl := String (chr 10) EmptyString in
  let tab := String (chr 9) EmptyString in
  let q := String (chr 34) EmptyString in
  reply_to p (":book: | Usage: " +++ q +++ "@" +++ b +++ " search [papers|issues|everything] <keywords>" +++ q +++ nl
              +++ tab +++ tab +++ tab +++ tab
              +++ "or " +++ q +++ "@" +++ b +++ " <Nxxxx|Pxxxx|PxxxxRx|Dxxxx|DxxxxRx|CWGxxx|EWGxxx|LWGxxx|LEWGxxx|FSxxx>" +++ q +++ nl
              +++ nl
              +++ b +++ " will also lookup any paper posted in square brackets, even without being mentioned.").

Definition operators : list string := ["tahonermann"; "sbuettner"].

Definition do_kill (tokens : list string) (p : post) (u : user) : M unit :=
  if negb (existsb (String.eqb (u_username u)) operators) then
    emit (EPrint "Ignoring terminating request")
  else
    _ <-- emit (EPrint ("Terminating paperbot after user request from " +++
                        display_name_of u +++ " - " +++ nickname_of u +++ " (" +++
                        u_username u +++ ")")) ;;;
    raise (SystemExit 1).

(** [tokens[i]] *)
Definition nth_token (tokens : list string) (i : nat) : result string :=
  match nth_error tokens i with Some t => Ok t | None => Err IndexError end.

Definition do_search_impl (keywords : list string) (ty : option string) (p : post)
  (u : user) : M unit :=
  let results := search (pi_search_index (env_paper_index e)) keywords ty in
  let displayed_results :=
    if 15 <? List.length results then firstn 15 results else results in
  if List.length displayed_results =? 0 then reply_to p "No results found."
  else
    try_keyerror
      (lines <-- lift (fold_right
                  (fun r acc =>
                     kv <- fetch_info_for (env_feed e) (e_id r) ;;
                     s <- create_and_format (fst kv) (snd kv) ;;
                     rest <- acc ;;
                     Ok (("1. " +++ s) :: rest))
                  (Ok []) displayed_results) ;;;
       let result_list := join (String (chr 10) EmptyString) lines in
       let reply := str_of_nat (List.length results)
                    +++ " results for your query" in
       let reply := if negb (List.length results =? List.length displayed_results)
                    then reply +++ ", showing most recent "
                         +++ str_of_nat (List.length displayed_results)
                    else reply in
       reply_to p (reply +++ ":" +++ String (chr 10) EmptyString +++ result_list))
      (_ <-- emit (EPrint "Formatting of one or multiple documents failed") ;;;
       reply_to p "An error occurred.").

Definition do_search (tokens : list string) (p : post) (u : user) : M unit :=
  _ <-- emit (EPrintTokens tokens) ;;;
  t2 <-- lift (nth_token tokens 2) ;;;
  if String.eqb t2 "papers" then do_search_impl (skipn 3 tokens) (Some "paper") p u
  else
  t2 <-- lift (nth_token tokens 2) ;;;
  if String.eqb t2 "issues" then do_search_impl (skipn 3 tokens) (Some "issue") p u
  else
  t2 <-- lift (nth_token tokens 2) ;;;
  if String.eqb t2 "everything" then do_search_impl (skipn 3 tokens) None p u
  else do_search_impl (skipn 2 tokens) None p u.

Definition handle_bot_command (p : post) (u : user) : M unit :=
  let tokens := command_tokens (p_message p) in
  let command := if 2 <=? List.length tokens then nth 1 tokens EmptyString else "_" in
  if String.eqb command "help" then do_help tokens p u
  else if String.eqb command "kill" then do_kill tokens p u
  else if String.eqb command "search" then do_search tokens p u
  else handle_paper_request tokens p u true.

Definition log_request_to_bot (p : post) (u : user) : M unit :=
  match find (fun c => String.eqb (c_id c) (p_channel_id p)) (env_channels e) with
  | None => raise StopIteration  (* next() on an exhausted filter *)
  | Some c =>
      let channel_name := if String.eqb (c_display_name c) EmptyString
                          then "(none)" else c_display_name c in
      emit (EPrint (display_name_of u +++ " - " +++ nickname_of u +++ " (" +++
                    u_username u +++ ") mentioned the bot in channel " +++ channel_name
                    +++ " (" +++ c_id c +++ ") with message: " +++ p_message p))
  end.

(** [filter_posts] of [run_once]. *)
Definition is_update_message (m : post) : bool := negb (Z.eqb (p_update_at m) (p_create_at m)).
Definition is_message_from_bot (m : post) : bool := String.eqb (p_user_id m) (u_id (env_me e)).
Definition posted_more_than_a_minute_ago (m : post) : bool :=
  (p_create_at m * 1000 <? env_now_us e - 60000000)%Z.
Definition is_message_in_thread (m : post) : bool := negb (String.eqb (p_root_id m) EmptyString).

Definition filter_posts (m : post) : bool :=
  negb (is_update_message m || is_message_from_bot m ||
        posted_more_than_a_minute_ago m || is_message_in_thread m).

Definition mention : string := "@" +++ u_username (env_me e).

Definition message_starts_with_mentioning_bot (m : post) : bool :=
  str_prefix mention (p_message m).

(** The loop of [run_once] over the posts of the cycle, from [p] on. *)
Fixpoint run_loop (posts : list post) : M unit :=
  match posts with
  | [] => ret tt
  | unread_post :: rest =>
      if negb (filter_posts unread_post) then run_loop rest
      else
        let u := env_get_user e (p_user_id unread_post) in
        _ <-- (if str_contains mention (p_message unread_post)
               then log_request_to_bot unread_post u else ret tt) ;;;
        if message_starts_with_mentioning_bot unread_post
        then handle_bot_command unread_post u
        else _ <-- handle_paper_request [] unread_post u false ;;; run_loop rest
  end.

End Handler.

(** [run_once], given the posts [read_posts()] returned. *)
Definition run_once (e : env) (posts : list post) : M unit := run_loop e posts.

(** ** ChatMessageService._read_channel_list and _do_channel_join_leave_actions *)

(** [set(a) - set(b)] on lists of ids, as a duplicate-free list. *)
Definition id_set_diff (a b : list string) : list string :=
  dedup (filter (fun x => negb (existsb (String.eqb x) b)) a).

(** The [for channel_id in channels_joined] loop of
    ChatMessageService._do_channel_join_leave_actions; [members] gives
    [len(get_channel_members(channel_id=...))]. *)
Fixpoint join_actions (channels : list channel) (members : string -> nat)
  (joined : list string) : M unit :=
  match joined with
  | [] => ret tt
  | channel_id :: t =>
      match find (fun c => String.eqb (c_id c) channel_id) channels with
      | None => raise StopIteration  (* next() on an exhausted filter *)
      | Some c =>
          let channel_name :=
            if String.eqb (c_display_name c) EmptyString then "(none)" else c_display_name c in
          _ <-- emit (EPrint ("Joined channel " +++ channel_id +++ " (name: " +++ channel_name
                              +++ ", members: " +++ str_of_nat (members channel_id) +++ ")")) ;;;
          join_actions channels members t
      end
  end.

(** The [for channel_id in channels_left] loop. *)
Fixpoint leave_actions (left : list string) : M unit :=
  match left with
  | [] => ret tt
  | channel_id :: t =>
      _ <-- emit (EPrint ("Left channel " +++ channel_id)) ;;; leave_actions t
  end.

Definition do_channel_join_leave_actions (channels : list channel) (members : string -> nat)
  (channels_joined channels_left : list string) : M unit :=
  _ <-- join_actions channels members channels_joined ;;; leave_actions channels_left.

(** ChatMessageService._read_channel_list: the channels of the bot's teams
    ([channels_for] is [get_channels_for_user] per team) replace the old
    list, and the joined and left channels are reported, each set iterated
    in [order]. Returns the new channel list and the reporting. *)
Definition read_channel_list (order : list string -> list string)
  (channels_for : string -> list channel) (teams : list string) (members : string -> nat)
  (old_channels : list channel) : list channel * M unit :=
  let updated_channels_list := flat_map channels_for teams in
  let channel_ids_after_update := map c_id updated_channels_list in
  let channel_ids_before_update := map c_id old_channels in
  let channels_left := id_set_diff channel_ids_before_update channel_ids_after_update in
  let channels_joined := id_set_diff channel_ids_after_update channel_ids_before_update in
  (updated_channels_list,
   do_channel_join_leave_actions updated_channels_list members
     (order channels_joined) (order channels_left)).

(** ** The result lines of _do_search_impl *)

(** One result line of [_do_search_impl] before its ["1. "] prefix:
    [MessageFormatterFactory().create_from_info(...)
    .format_message()]. *)
Definition format_result (e : env) (r : search_entry) : result string :=
  kv <- fetch_info_for (env_feed e) (e_id r) ;;
  create_and_format (fst kv) (snd kv).

(** * Auxiliary definitions and sample data *)

Fixpoint str_forall (p : ascii -> bool) (s : string) : bool :=
  match s with
  | EmptyString => true
  | String c t => p c && str_forall p t
  end.

Definition starts_with_digit (s : string) : bool :=
  match s with String c _ => is_digit c | EmptyString => false end.

Definition starts_R_digit (s : string) : bool :=
  match s with
  | String c t => Ascii.eqb c "R" && starts_with_digit t
  | EmptyString => false
  end.

(** Some 'R' of [s] is followed by a digit. *)
Fixpoint has_R_digit (s : string) : bool :=
  match s with
  | EmptyString => false
  | String c t => starts_R_digit (String c t) || has_R_digit t
  end.

Definition rev_suffix : regex := RSeq (lit_char "R") (RGroup 2 (RPlus is_digit)).

(** A group whose latest pointer names one of its own records. *)
Definition latest_ok (g : group_t) : Prop :=
  exists id r, dget latest_key g = Some (SLatest id) /\ dget id g = Some (SRecord r).

Definition index_ok (idx : index_t) : Prop :=
  forall reference g, dget reference idx = Some g -> latest_ok g.

Definition sample_paper (title : string) : info :=
  mk_info (Some "paper") (Some title) (Some "A. Author") None (Some "2020-01-02")
          None None None None None (Some "https://wg21.link/p1234").

Definition sample_payload : payload :=
  [("P1234", sample_paper "Rev 0"); ("P1234R1", sample_paper "Rev 1");
   ("N4000", sample_paper "Working draft")].

Definition sample_index : index_t :=
  Eval vm_compute in
    match rebuild_index sample_payload with Ok idx => idx | Err _ => [] end.

Definition sample_group : group_t :=
  Eval vm_compute in match dget "P1234" sample_index with Some g => g | None => [] end.

Definition date_ge (a b : search_entry) : Prop := (e_date b <= e_date a)%Z.

(** The selection the spec describes: every keyword, lower-cased, occurs in
    the lower-cased keyword field, and the type is the filter's when one is
    given. *)
Definition spec_search_match (keywords : list string) (ty : option string)
  (entry : search_entry) : bool :=
  forallb (fun keyword => str_contains (lower keyword) (lower (e_keywords entry))) keywords &&
  match ty with None => true | Some t => String.eqb (e_type entry) t end.

Definition c2_dated (title date : string) : info :=
  mk_info (Some "paper") (Some title) None None (Some date) None None None None None
          (Some "https://wg21.link/n1000").

Definition c2_undated (title : string) : info :=
  mk_info (Some "paper") (Some title) None None None None None None None None
          (Some "https://wg21.link/p2000").

Definition c2_index : index_t :=
  Eval vm_compute in
    match rebuild_index [("N1000", c2_dated "Concepts history" "1969-07-20");
                         ("P2000", c2_undated "Concepts")] with
    | Ok idx => idx
    | Err _ => []
    end.

Definition c2_search_index : list search_entry :=
  Eval vm_compute in
    match rebuild_search_index c2_index with Ok s => s | Err _ => [] end.

Definition bot_user : user := mk_user "bot-id" "paperbot" "" "" "".
Definition alice : user := mk_user "alice-id" "alice" "" "Alice" "Smith".
Definition operator_user : user := mk_user "op-id" "sbuettner" "" "" "".

Definition issue_with_github : info :=
  mk_info (Some "issue") (Some "Lookup of a name") None (Some "A. Submitter") None
          (Some "6.5") None None None (Some "https://github.com/cplusplus/CWG/issues/1")
          (Some "https://wg21.link/cwg1").

Definition chat_payload : payload :=
  [("P1234", sample_paper "Rev 0"); ("CWG1", issue_with_github)].

Definition chat_paper_index : paper_index :=
  Eval vm_compute in
    match try_refresh_index (Ok chat_payload) with
    | Ok pi => pi
    | Err _ => mk_paper_index [] []
    end.

Definition sample_env (order : list string -> list string) : env :=
  mk_env bot_user 1700000000000000%Z
         (fun id => if String.eqb id "op-id" then operator_user else alice)
         [mk_channel "chan" "O" "general"] (Ok chat_payload) chat_paper_index order.

Definition sample_post (author message : string) : post :=
  mk_post "post-1" "chan" "" author message 1699999999000%Z 1699999999000%Z.

Definition is_post_event (ev : event) : bool :=
  match ev with EPost _ _ _ => true | _ => false end.

(** The posts created by a computation. *)
Definition posted {A} (m : M A) : list event := filter is_post_event (fst m).

Definition with_message (m : post) (message : string) : post :=
  mk_post (p_id m) (p_channel_id m) (p_root_id m) (p_user_id m) message
          (p_create_at m) (p_update_at m).

(** ** Further auxiliary definitions *)

(** The base reference an id is filed under. *)
Definition base_of (id : string) : string := fst (extract_reference_and_revision_from_id id).

(** The record a dict built from the payload's items keeps for [id]: the
    last one given. *)
Definition last_record (id : string) (p : payload) : option info := dget id (rev p).

(** The last id of the payload filed under the base [b]. *)
Definition last_id_with_base (b : string) (p : payload) : option string :=
  option_map fst (find (fun kv => String.eqb (base_of (fst kv)) b) (rev p)).

(** Where the index files [id]: in the group of its base, under key [id]. *)
Definition get_record (idx : index_t) (id : string) : option slot :=
  match dget (base_of id) idx with Some g => dget id g | None => None end.

Definition add_new (acc : list string) (x : string) : list string :=
  if existsb (String.eqb x) acc then acc else acc ++ [x].

(** The elements of [l] in the order of their first occurrence. *)
Definition first_occurrences (l : list string) : list string := fold_left add_new l [].

(** An entry of a group: the latest pointer under ['_'], a record with a
    title and a type under any other key. *)
Definition slot_good (kv : string * slot) : Prop :=
  match snd kv with
  | SLatest _ => fst kv = latest_key
  | SRecord r => fst kv <> latest_key /\ i_title r <> None /\ i_type r <> None
  end.

Definition group_good (g : group_t) : Prop := latest_ok g /\ Forall slot_good g.

Definition sample_refreshed : paper_index :=
  Eval vm_compute in
    match try_refresh_index (Ok sample_payload) with
    | Ok pi => pi
    | Err _ => mk_paper_index [] []
    end.

(** Whether some character of [s] satisfies [p]. *)
Fixpoint str_exists (p : ascii -> bool) (s : string) : bool :=
  match s with
  | EmptyString => false
  | String c t => p c || str_exists p t
  end.

(** The characters of [s] that satisfy [p], in order. *)
Fixpoint str_filter (p : ascii -> bool) (s : string) : string :=
  match s with
  | EmptyString => EmptyString
  | String c t => if p c then String c (str_filter p t) else str_filter p t
  end.

(** The concatenation of a list of strings. *)
Definition concat_str (l : list string) : string := fold_right String.append EmptyString l.

(** Replacing each character by a string. *)
Fixpoint str_flat_map (f : ascii -> string) (s : string) : string :=
  match s with
  | EmptyString => EmptyString
  | String c t => f c +++ str_flat_map f t
  end.

(** What [escape_text] makes of one character: a backslash before each of
    the link delimiters [[], [)], [(], [)]. *)
Definition escape_char (c : ascii) : string :=
  if char_in "[]()" c then backslash +++ String c EmptyString else String c EmptyString.


(** The captured groups of a match satisfy [p] character by character. *)
Definition caps_ok (p : ascii -> bool) (cs : captures) : Prop :=
  Forall (fun c => str_forall p (snd c) = true) cs.

(** The replies a list of events creates: channel and thread root of each
    post sent through the driver. *)
Definition replies (evs : list event) : list (string * string) :=
  flat_map (fun ev => match ev with EPost ch root _ => [(ch, root)] | _ => [] end) evs.

(** [l1] is [l2] with some elements left out. *)
Inductive subseq {A : Type} : list A -> list A -> Prop :=
| subseq_nil : subseq [] []
| subseq_skip (x : A) (l1 l2 : list A) : subseq l1 l2 -> subseq l1 (x :: l2)
| subseq_take (x : A) (l1 l2 : list A) : subseq l1 l2 -> subseq (x :: l1) (x :: l2).

(** A computation creates no post. *)
Definition quiet {A} (m : M A) : Prop := replies (fst m) = [].

(** A computation answers [p] at most once, in its channel and as a thread
    under it, and only when it completes without an exception. *)
Definition one_reply {A} (p : post) (m : M A) : Prop :=
  quiet m \/ (replies (fst m) = [(p_channel_id p, p_id p)] /\ exists a, snd m = Ok a).

(** * Properties *)

(** ** Strings and lists *)

Lemma append_nil_r (s : string) : s +++ EmptyString = s.
Proof. induction s as [|c s IH]; simpl; [reflexivity | now rewrite IH]. Qed.

Lemma append_assoc (a b c : string) : (a +++ b) +++ c = a +++ b +++ c.
Proof. induction a as [|x a IH]; simpl; [reflexivity | now rewrite IH]. Qed.

Lemma length_append (a b : string) :
  String.length (a +++ b) = String.length a + String.length b.
Proof. induction a as [|x a IH]; simpl; [reflexivity | now rewrite IH]. Qed.

Lemma substring_prefix (a b : string) : substring 0 (String.length a) (a +++ b) = a.
Proof.
  induction a as [|x a IH]; simpl.
  - destruct b; reflexivity.
  - now rewrite IH.
Qed.

Lemma consumed_append (a b : string) : consumed (a +++ b) b = a.
Proof.
  unfold consumed. rewrite length_append.
  replace (String.length a + String.length b - String.length b) with (String.length a) by lia.
  apply substring_prefix.
Qed.

Lemma hd_error_app {A} (l1 l2 : list A) :
  hd_error (l1 ++ l2) = match hd_error l1 with Some x => Some x | None => hd_error l2 end.
Proof. destruct l1; reflexivity. Qed.

Lemma hd_error_map {A B} (f : A -> B) (l : list A) :
  hd_error (map f l) = option_map f (hd_error l).
Proof. destruct l; reflexivity. Qed.

Lemma flat_map_map_comp {A B C} (f : B -> list C) (g : A -> B) (l : list A) :
  flat_map f (map g l) = flat_map (fun x => f (g x)) l.
Proof. induction l as [|x l IH]; simpl; [reflexivity | now rewrite IH]. Qed.

(** The first result of a [flat_map] comes from the first element whose
    image is non-empty. *)
Lemma hd_error_flat_map {A B} (f : A -> list B) (l : list A) :
  hd_error (flat_map f l) =
  match find (fun x => match f x with [] => false | _ => true end) l with
  | Some x => hd_error (f x)
  | None => None
  end.
Proof.
  induction l as [|x l IH]; simpl; [reflexivity|].
  rewrite hd_error_app. destruct (f x) eqn:E; simpl; [exact IH | now rewrite E].
Qed.

Lemma find_app {A} (p : A -> bool) (l1 l2 : list A) :
  find p (l1 ++ l2) = match find p l1 with Some x => Some x | None => find p l2 end.
Proof.
  induction l1 as [|x l1 IH]; simpl; [reflexivity|].
  destruct (p x); [reflexivity | exact IH].
Qed.

Lemma find_ext_eq {A} (p q : A -> bool) (l : list A) :
  (forall x, p x = q x) -> find p l = find q l.
Proof.
  intros H. induction l as [|x l IH]; simpl; [reflexivity|].
  rewrite H. destruct (q x); [reflexivity | exact IH].
Qed.

(** ** The revision resolver *)

Lemma plus_rests_nil (p : ascii -> bool) (s : string) :
  match s with String c _ => p c | EmptyString => false end = false ->
  plus_rests p s = [].
Proof. destruct s as [|c t]; simpl; [reflexivity|]. intros H; now rewrite H. Qed.

Lemma run_rev_suffix_nonempty (t : string) :
  match run rev_suffix t with [] => false | _ => true end = starts_R_digit t.
Proof.
  destruct t as [|c t]; [reflexivity|].
  unfold rev_suffix; simpl.
  destruct (Ascii.eqb c "R"); simpl; [|reflexivity].
  rewrite app_nil_r.
  destruct t as [|d u]; [reflexivity|]. simpl.
  destruct (is_digit d) eqn:Hd; simpl; [|reflexivity].
  destruct (plus_rests is_digit u); reflexivity.
Qed.

Lemma hd_plus_rests_digits (d rest : string) :
  d <> EmptyString -> str_forall is_digit d = true -> starts_with_digit rest = false ->
  hd_error (plus_rests is_digit (d +++ rest)) = Some rest.
Proof.
  intros Hne Hd Hr. induction d as [|c d IH]; [congruence|].
  simpl in Hd |- *. apply andb_prop in Hd as [Hc Hd]. rewrite Hc.
  destruct d as [|c' d'].
  - simpl. rewrite plus_rests_nil by (destruct rest; exact Hr). reflexivity.
  - rewrite hd_error_app, IH by (congruence || exact Hd). reflexivity.
Qed.

Lemma has_R_digit_append_digits (d rest : string) :
  str_forall is_digit d = true -> starts_with_digit rest = false ->
  has_R_digit rest = false -> has_R_digit (d +++ rest) = false.
Proof.
  intros Hd Hs Hr. induction d as [|c d IH]; simpl; [exact Hr|].
  simpl in Hd. apply andb_prop in Hd as [Hc Hd].
  rewrite IH by exact Hd.
  assert (Ascii.eqb c "R" = false) as ->.
  { destruct (Ascii.eqb_spec c "R"); [subst; discriminate | reflexivity]. }
  reflexivity.
Qed.

Lemma find_plus_rests_none (p : ascii -> bool) (s : string) :
  has_R_digit s = false -> find starts_R_digit (plus_rests p s) = None.
Proof.
  induction s as [|c t IH]; simpl; [reflexivity|].
  intros H. apply orb_false_elim in H as [H1 H2].
  destruct (p c); [|reflexivity].
  rewrite find_app, IH by exact H2. simpl.
  destruct t as [|c' t']; [reflexivity|].
  simpl in H2 |- *. apply orb_false_elim in H2 as [H2 _]. now rewrite H2.
Qed.

Lemma find_plus_rests_split (base d rest : string) :
  base <> EmptyString -> str_forall not_newline base = true ->
  d <> EmptyString -> str_forall is_digit d = true ->
  starts_with_digit rest = false -> has_R_digit rest = false ->
  find starts_R_digit (plus_rests not_newline (base +++ String "R" (d +++ rest)))
  = Some (String "R" (d +++ rest)).
Proof.
  intros Hb Hnl Hdne Hd Hs Hr.
  assert (Hdr : has_R_digit (d +++ rest) = false)
    by (apply has_R_digit_append_digits; assumption).
  assert (Hsd : starts_R_digit (d +++ rest) = false).
  { destruct d as [|c d']; [congruence|]. simpl.
    simpl in Hd. apply andb_prop in Hd as [Hc _].
    destruct (Ascii.eqb_spec c "R"); [subst; discriminate | reflexivity]. }
  assert (HsR : starts_R_digit (String "R" (d +++ rest)) = true).
  { destruct d as [|c d']; [congruence|]. simpl in Hd |- *.
    apply andb_prop in Hd as [Hc _]. exact Hc. }
  induction base as [|c b IH]; [congruence|].
  simpl in Hnl. apply andb_prop in Hnl as [Hc Hnl]. simpl. rewrite Hc.
  rewrite find_app.
  destruct b as [|c' b'].
  - simpl. rewrite find_app, find_plus_rests_none by exact Hdr. simpl.
    rewrite Hsd. simpl. simpl in HsR. rewrite HsR. reflexivity.
  - rewrite IH by (congruence || exact Hnl). reflexivity.
Qed.

Lemma run_group_plus_seq (n : nat) (p : ascii -> bool) (r2 : regex) (s : string) :
  run (RSeq (RGroup n (RPlus p)) r2) s =
  flat_map (fun t => map (fun m2 => ((n, consumed s t) :: fst m2, snd m2)) (run r2 t))
           (plus_rests p s).
Proof. simpl. rewrite map_map, flat_map_map_comp. reflexivity. Qed.

Lemma map_nonempty {A B} (f : A -> B) (l : list A) :
  match map f l with [] => false | _ => true end = match l with [] => false | _ => true end.
Proof. destruct l; reflexivity. Qed.

Lemma extract_split (base d rest : string) :
  base <> EmptyString -> str_forall not_newline base = true ->
  d <> EmptyString -> str_forall is_digit d = true ->
  starts_with_digit rest = false -> has_R_digit rest = false ->
  extract_reference_and_revision_from_id (base +++ String "R" (d +++ rest))
  = (base, digits_value d).
Proof.
  intros Hb Hnl Hdne Hd Hs Hr.
  unfold extract_reference_and_revision_from_id, re_match.
  change reference_and_revision_regex with (RSeq (RGroup 1 (RPlus not_newline)) rev_suffix).
  rewrite run_group_plus_seq, hd_error_flat_map.
  erewrite find_ext_eq.
  2:{ intros t. rewrite map_nonempty, run_rev_suffix_nonempty. reflexivity. }
  rewrite find_plus_rests_split by assumption.
  rewrite hd_error_map.
  unfold rev_suffix. cbn [run lit_char]. rewrite Ascii.eqb_refl. cbn [flat_map app].
  rewrite app_nil_r. cbn [fst snd].
  rewrite !hd_error_map, hd_plus_rests_digits by assumption.
  simpl. rewrite !consumed_append.
  unfold group_or_empty, group. simpl. reflexivity.
Qed.

Lemma extract_no_split (id : string) :
  has_R_digit (match id with String _ t => t | EmptyString => EmptyString end) = false ->
  extract_reference_and_revision_from_id id = (id, 0%N).
Proof.
  intros H.
  unfold extract_reference_and_revision_from_id, re_match.
  change reference_and_revision_regex with (RSeq (RGroup 1 (RPlus not_newline)) rev_suffix).
  rewrite run_group_plus_seq, hd_error_flat_map.
  erewrite find_ext_eq.
  2:{ intros t. rewrite map_nonempty, run_rev_suffix_nonempty. reflexivity. }
  destruct id as [|c t]; [reflexivity|]. simpl.
  destruct (not_newline c); [|reflexivity].
  rewrite find_app, find_plus_rests_none by exact H. simpl.
  destruct t as [|c' t']; [reflexivity|].
  simpl in H |- *. apply orb_false_elim in H as [H _]. now rewrite H.
Qed.

(** ** Dicts *)

Lemma dget_dset_eq {V} (k : string) (v : V) (d : dict V) : dget k (dset k v d) = Some v.
Proof.
  induction d as [|[k' v'] d IH]; simpl.
  - now rewrite String.eqb_refl.
  - destruct (String.eqb k k') eqn:E; simpl.
    + now rewrite String.eqb_refl.
    + now rewrite E.
Qed.

Lemma dget_dset_neq {V} (k k' : string) (v : V) (d : dict V) :
  k <> k' -> dget k (dset k' v d) = dget k d.
Proof.
  intros Hne. induction d as [|[k'' v'] d IH]; simpl.
  - apply String.eqb_neq in Hne. now rewrite Hne.
  - destruct (String.eqb k' k'') eqn:E; simpl.
    + apply String.eqb_eq in E. subst k''.
      apply String.eqb_neq in Hne. now rewrite Hne.
    + destruct (String.eqb k k''); [reflexivity | exact IH].
Qed.

Lemma dget_dset {V} (k k' : string) (v : V) (d : dict V) :
  dget k (dset k' v d) = if String.eqb k k' then Some v else dget k d.
Proof.
  destruct (String.eqb_spec k k') as [->|Hne].
  - apply dget_dset_eq.
  - now apply dget_dset_neq.
Qed.

(** ** The reference index *)

Lemma rebuild_step_ok (idx idx' : index_t) (entry : string * info) :
  index_ok idx -> rebuild_step idx entry = Ok idx' -> index_ok idx'.
Proof.
  intros Hok Hstep. destruct entry as [id inf].
  unfold rebuild_step in Hstep.
  destruct (extract_reference_and_revision_from_id id) as [reference revision].
  assert (H0 : (0 <=? revision)%N = true) by (apply N.leb_le; lia).
  rewrite H0 in Hstep.
  match type of Hstep with
  | context [dget latest_key (dset id (SRecord inf) ?G)] =>
      remember G as grp0 eqn:Egrp0
  end.
  remember (if dmem reference idx then idx else dset reference [] idx) as idx1 eqn:Eidx1.
  assert (Hid : id <> latest_key /\
                idx' = dset reference (dset latest_key (SLatest id)
                                         (dset id (SRecord inf) grp0)) idx1).
  { destruct (dget latest_key (dset id (SRecord inf) grp0)) as [[r|l]|] eqn:Elatest;
      simpl in Hstep; [discriminate| |];
      (split; [intros ->; rewrite dget_dset_eq in Elatest; discriminate
              | injection Hstep as <-; reflexivity]). }
  destruct Hid as [Hid ->].
  intros ref g Hg.
  rewrite dget_dset in Hg.
  destruct (String.eqb_spec ref reference) as [->|Hne].
  - injection Hg as <-. exists id, inf. split.
    + apply dget_dset_eq.
    + rewrite dget_dset_neq by exact Hid. apply dget_dset_eq.
  - apply (Hok ref). subst idx1.
    destruct (dmem reference idx); [exact Hg|].
    rewrite dget_dset_neq in Hg by exact Hne. exact Hg.
Qed.

Lemma rebuild_loop_ok (p : payload) : forall idx idx',
  index_ok idx -> rebuild_loop idx p = Ok idx' -> index_ok idx'.
Proof.
  induction p as [|entry p IH]; simpl; intros idx idx' Hok H.
  - injection H as <-. exact Hok.
  - destruct (rebuild_step idx entry) as [idx1|err] eqn:E; simpl in H; [|discriminate].
    exact (IH idx1 idx' (rebuild_step_ok idx idx1 entry Hok E) H).
Qed.

(** ** C1: the latest pointer and the order of the feed *)

(** C1 (code_bug). Resolving the bare base reference returns the entry
    processed last for that base, whatever the revisions: with [P1234R1]
    before [P1234] in the payload, [P1234] (revision 0) is returned, while
    the other order returns [P1234R1]. The comparison at line 60 is against
    a [latest_revision] that line 58 always binds to [0]. *)
Theorem rebuild_latest_follows_feed_order (r0 r1 : info) :
  (idx <- rebuild_index [("P1234R1", r1); ("P1234", r0)] ;; lookup_info idx "P1234")
    = Ok ("P1234", Some (SRecord r0)) /\
  (idx <- rebuild_index [("P1234", r0); ("P1234R1", r1)] ;; lookup_info idx "P1234")
    = Ok ("P1234R1", Some (SRecord r1)).
Proof. split; reflexivity. Qed.

(** ** C3: the revision resolver *)

(** C3 (counterexample). [P1234R1X] does not have the form base, 'R',
    digits, yet the resolver does not return it with revision 0: the
    pattern is only anchored at the start, and it returns [("P1234", 1)]. *)
Lemma resolver_trailing_text_cex :
  extract_reference_and_revision_from_id "P1234R1X" = ("P1234", 1%N) /\
  extract_reference_and_revision_from_id "P1234R1X" <> ("P1234R1X", 0%N).
Proof. split; [reflexivity | discriminate]. Qed.

(** C3 (amended). The resolver is a total function. For an id made of a
    non-empty base without newline, 'R', a run of digits [d], and a rest
    that neither starts with a digit nor contains an 'R' followed by a
    digit, it returns [(base, int(d))]; so in particular every
    [base ++ "R" ++ d] gives [(base, int(d))]. An id with no 'R' followed by a
    digit after its first character is returned with revision 0. *)
Theorem resolver_prefix_match (base d rest id : string) :
  base <> EmptyString -> str_forall not_newline base = true ->
  d <> EmptyString -> str_forall is_digit d = true ->
  starts_with_digit rest = false -> has_R_digit rest = false ->
  has_R_digit (match id with String _ t => t | EmptyString => EmptyString end) = false ->
  extract_reference_and_revision_from_id (base +++ String "R" (d +++ rest))
    = (base, digits_value d) /\
  extract_reference_and_revision_from_id id = (id, 0%N).
Proof.
  intros Hb Hnl Hdne Hd Hs Hr Hid. split.
  - now apply extract_split.
  - now apply extract_no_split.
Qed.

Lemma resolver_prefix_match_witness :
  extract_reference_and_revision_from_id ("P1234" +++ String "R" ("12" +++ "-x"))
    = ("P1234", 12%N) /\
  extract_reference_and_revision_from_id "N4000" = ("N4000", 0%N).
Proof.
  exact (resolver_prefix_match "P1234" "12" "-x" "N4000"
           ltac:(discriminate) eq_refl ltac:(discriminate) eq_refl eq_refl eq_refl eq_refl).
Defined.

(** ** C10: the latest pointer of every group *)

(** C10. After a rebuild that completes, every group of the index has a
    latest pointer, and the id it names is a key of the same group, holding
    a record. *)
Theorem rebuild_latest_pointer_in_group (p : payload) (idx : index_t) :
  rebuild_index p = Ok idx ->
  forall reference g, dget reference idx = Some g ->
  exists id r, dget latest_key g = Some (SLatest id) /\ dget id g = Some (SRecord r).
Proof.
  intros H. apply (rebuild_loop_ok p [] idx); [|exact H].
  intros reference g Hg. discriminate Hg.
Qed.

Lemma rebuild_latest_pointer_in_group_witness :
  rebuild_index sample_payload = Ok sample_index /\
  dget "P1234" sample_index = Some sample_group /\
  exists id r, dget latest_key sample_group = Some (SLatest id) /\
               dget id sample_group = Some (SRecord r).
Proof.
  split; [vm_compute; reflexivity|]. split; [vm_compute; reflexivity|].
  exact (rebuild_latest_pointer_in_group sample_payload sample_index
           ltac:(vm_compute; reflexivity) "P1234" sample_group ltac:(vm_compute; reflexivity)).
Defined.

(** ** The search index *)

Lemma lower_c_idem (c : ascii) : lower_c (lower_c c) = lower_c c.
Proof. destruct c as [[] [] [] [] [] [] [] []]; reflexivity. Qed.

Lemma lower_idem (s : string) : lower (lower s) = lower s.
Proof.
  unfold lower. induction s as [|c s IH]; simpl; [reflexivity|].
  now rewrite lower_c_idem, IH.
Qed.

Lemma insert_desc_perm (x : search_entry) (l : list search_entry) :
  Permutation (insert_desc x l) (x :: l).
Proof.
  induction l as [|y l IH]; simpl; [reflexivity|].
  destruct (e_date y <=? e_date x)%Z; [reflexivity|].
  rewrite IH. apply perm_swap.
Qed.

Lemma sort_desc_perm (l : list search_entry) : Permutation (sort_desc l) l.
Proof.
  induction l as [|x l IH]; simpl; [reflexivity|].
  rewrite insert_desc_perm. now apply perm_skip.
Qed.

Lemma insert_desc_hdrel (x y : search_entry) (l : list search_entry) :
  HdRel date_ge y l -> date_ge y x -> HdRel date_ge y (insert_desc x l).
Proof.
  intros Hl Hyx. destruct l as [|z l]; simpl; [now constructor|].
  destruct (e_date z <=? e_date x)%Z; constructor; [exact Hyx|].
  now inversion Hl.
Qed.

Lemma insert_desc_sorted (x : search_entry) (l : list search_entry) :
  Sorted date_ge l -> Sorted date_ge (insert_desc x l).
Proof.
  induction l as [|y l IH]; simpl; intros Hs; [now repeat constructor|].
  destruct (e_date y <=? e_date x)%Z eqn:E.
  - constructor; [exact Hs|]. constructor. unfold date_ge. now apply Z.leb_le.
  - apply Sorted_inv in Hs as [Hl Hhd]. constructor; [now apply IH|].
    apply insert_desc_hdrel; [exact Hhd|]. unfold date_ge.
    apply Z.leb_gt in E. lia.
Qed.

Lemma sort_desc_sorted (l : list search_entry) : Sorted date_ge (sort_desc l).
Proof.
  induction l as [|x l IH]; simpl; [constructor|]. now apply insert_desc_sorted.
Qed.

Lemma rebuild_search_index_lower (idx : index_t) (sidx : list search_entry) :
  rebuild_search_index idx = Ok sidx ->
  Forall (fun x => lower (e_keywords x) = e_keywords x) sidx.
Proof.
  revert sidx. induction idx as [|[reference document] idx IH]; simpl; intros sidx H.
  - injection H as <-. constructor.
  - destruct (make_entry reference document) as [x|err] eqn:Ex; simpl in H; [|discriminate].
    destruct (rebuild_search_index idx) as [rest|err] eqn:Er; simpl in H; [|discriminate].
    injection H as <-. constructor; [|now apply IH].
    unfold make_entry in Ex.
    destruct (dindex latest_key document) as [[r|lid]|]; simpl in Ex; try discriminate.
    destruct (dindex lid document) as [[inf|l']|]; simpl in Ex; try discriminate.
    destruct (field (i_type inf)); simpl in Ex; try discriminate.
    destruct (keyword_items document); simpl in Ex; try discriminate.
    injection Ex as <-. simpl. apply lower_idem.
Qed.

Lemma matches_search_lower (keywords : list string) (ty : option string) (x : search_entry) :
  Forall (fun k => lower k = k) keywords -> lower (e_keywords x) = e_keywords x ->
  matches_search keywords ty x = spec_search_match keywords ty x.
Proof.
  intros Hk Hx. unfold matches_search, spec_search_match. f_equal.
  induction Hk as [|k ks Hk Hks IH]; simpl; [reflexivity|].
  rewrite IH, Hk, Hx. reflexivity.
Qed.

(** C2 (counterexample). Searching for [Concepts] finds nothing, although
    both entries contain "concepts" case-insensitively: the keywords are
    not lower-cased. And the entry without a date does not sort last: it
    counts as 1970-01-01, after the entry dated 1969-07-20. *)
Lemma search_case_and_epoch_cex :
  search c2_search_index ["Concepts"] (Some "paper") = [] /\
  map e_id (filter (spec_search_match ["Concepts"] (Some "paper")) c2_search_index)
    = ["N1000"; "P2000"] /\
  map e_id (search c2_search_index ["concepts"] None) = ["P2000"; "N1000"].
Proof. vm_compute. repeat split; reflexivity. Qed.

(** C2 (amended). For keywords already in lower case, the search returns
    exactly the entries of the search index whose keyword field contains
    every keyword case-insensitively and whose type is the filter's when
    one is given, ordered by date, most recent first; a record whose date is
    absent, or parsed by no accepted format, is dated 1970-01-01. *)
Theorem search_lowercase_keywords (idx : index_t) (sidx : list search_entry)
  (keywords : list string) (ty : option string) :
  rebuild_search_index idx = Ok sidx ->
  Forall (fun k => lower k = k) keywords ->
  Permutation (search sidx keywords ty) (filter (spec_search_match keywords ty) sidx) /\
  Sorted date_ge (search sidx keywords ty) /\
  (forall inf, (i_date inf = None \/
                exists d, i_date inf = Some d /\ first_parse d accepted_formats = None) ->
               get_date inf = epoch).
Proof.
  intros Hidx Hk. split; [|split].
  - unfold search. rewrite sort_desc_perm.
    erewrite filter_ext_in; [reflexivity|].
    intros x Hin. apply matches_search_lower; [exact Hk|].
    apply (proj1 (Forall_forall _ _) (rebuild_search_index_lower idx sidx Hidx)).
    exact Hin.
  - apply sort_desc_sorted.
  - intros inf [Hn|[d [Hd Hp]]]; unfold get_date.
    + rewrite Hn. vm_compute. reflexivity.
    + rewrite Hd, Hp. reflexivity.
Qed.

Lemma search_lowercase_keywords_witness :
  Permutation (search c2_search_index ["concepts"] (Some "paper"))
              (filter (spec_search_match ["concepts"] (Some "paper")) c2_search_index) /\
  Sorted date_ge (search c2_search_index ["concepts"] (Some "paper")) /\
  (forall inf, (i_date inf = None \/
                exists d, i_date inf = Some d /\ first_parse d accepted_formats = None) ->
               get_date inf = epoch).
Proof.
  apply (search_lowercase_keywords c2_index c2_search_index ["concepts"] (Some "paper")).
  - vm_compute. reflexivity.
  - repeat constructor.
Defined.

(** ** The command handler *)

(** C4 (code_bug). A fresh message without any bracketed reference, not
    starting with the mention, still makes the handler create a post: an
    empty one. *)
Theorem plain_message_gets_empty_reply :
  run_once (sample_env (fun l => l)) [sample_post "alice-id" "hello"]
  = ([EPrintPost (sample_post "alice-id" "hello"); EPost "chan" "post-1" ""], Ok tt).
Proof. vm_compute. reflexivity. Qed.

(** C5 (code_bug). [@paperbot search] with no argument raises [IndexError]
    out of [run_once] (reading [tokens[2]]), which ends the poll loop. *)
Theorem search_without_arguments_raises :
  snd (run_once (sample_env (fun l => l)) [sample_post "alice-id" "@paperbot search"])
  = Err IndexError /\
  posted (run_once (sample_env (fun l => l)) [sample_post "alice-id" "@paperbot search"])
  = [].
Proof. vm_compute. split; reflexivity. Qed.

(** C6 (code_bug). Formatting the issue [CWG1], which has a GitHub URL,
    raises [AttributeError], which the [except KeyError] does not catch:
    whatever the order of the set, no reply is posted, not even the line of
    [P1234], and the exception leaves [run_once]. *)
Theorem bad_reference_suppresses_reply :
  run_once (sample_env (fun l => l)) [sample_post "alice-id" "see [CWG1] and [P1234]"]
  = ([], Err AttributeError) /\
  snd (run_once (sample_env (@rev string)) [sample_post "alice-id" "see [CWG1] and [P1234]"])
  = Err AttributeError /\
  posted (run_once (sample_env (@rev string)) [sample_post "alice-id" "see [CWG1] and [P1234]"])
  = [] /\
  posted (run_once (sample_env (fun l => l)) [sample_post "alice-id" "see [P1234]"])
  <> [].
Proof. vm_compute. repeat split; discriminate. Qed.

Lemma str_prefix_contains (n h : string) :
  str_prefix n h = true -> str_contains n h = true.
Proof. intro H. destruct h; simpl; rewrite H; reflexivity. Qed.

Lemma find_channel_some (x : string) (l : list channel) :
  In x (map c_id l) -> exists c, find (fun c => String.eqb (c_id c) x) l = Some c.
Proof.
  induction l as [|c l IH]; simpl; [tauto|].
  intros [Hx|Hx].
  - exists c. subst x. now rewrite String.eqb_refl.
  - destruct (String.eqb (c_id c) x); [now exists c | exact (IH Hx)].
Qed.

Lemma log_request_known_channel (e : env) (p : post) (u : user) :
  In (p_channel_id p) (map c_id (env_channels e)) ->
  exists line, log_request_to_bot e p u = emit (EPrint line).
Proof.
  intro H. destruct (find_channel_some _ _ H) as [c Hc].
  unfold log_request_to_bot. rewrite Hc. eexists. reflexivity.
Qed.

Lemma run_loop_command (e : env) (p : post) (rest : list post) :
  filter_posts e p = true -> message_starts_with_mentioning_bot e p = true ->
  run_loop e (p :: rest) =
  mbind (log_request_to_bot e p (env_get_user e (p_user_id p)))
        (fun _ => handle_bot_command e p (env_get_user e (p_user_id p))).
Proof.
  intros Hf Hs. cbn [run_loop]. rewrite Hf, Hs. cbn [negb].
  unfold message_starts_with_mentioning_bot in Hs.
  rewrite (str_prefix_contains _ _ Hs). reflexivity.
Qed.

Lemma handle_kill (e : env) (p : post) (u : user) :
  nth_error (command_tokens (p_message p)) 1 = Some "kill" ->
  handle_bot_command e p u = do_kill (command_tokens (p_message p)) p u.
Proof.
  intro H. unfold handle_bot_command.
  destruct (command_tokens (p_message p)) as [|t0 [|t1 ts]]; try discriminate.
  simpl in H. injection H as ->. reflexivity.
Qed.

Lemma existsb_operators (s : string) :
  existsb (String.eqb s) operators = true <-> In s operators.
Proof.
  rewrite existsb_exists. split.
  - intros [x [Hx Heq]]. apply String.eqb_eq in Heq. now subst.
  - intro H. exists s. split; [exact H | apply String.eqb_refl].
Qed.

(** C7. A kill command (a surviving message that starts with the mention
    and whose second token is [kill]) by a user whose handle is not one of
    the operators only prints: no post is created and the cycle ends
    normally. By an operator, the process exits with status 1, again
    without any post. *)
Theorem kill_only_by_operators (e : env) (p : post) (rest : list post) :
  filter_posts e p = true ->
  In (p_channel_id p) (map c_id (env_channels e)) ->
  message_starts_with_mentioning_bot e p = true ->
  nth_error (command_tokens (p_message p)) 1 = Some "kill" ->
  let u := env_get_user e (p_user_id p) in
  (~ In (u_username u) operators ->
     posted (run_once e (p :: rest)) = [] /\ snd (run_once e (p :: rest)) = Ok tt) /\
  (In (u_username u) operators ->
     posted (run_once e (p :: rest)) = [] /\
     snd (run_once e (p :: rest)) = Err (SystemExit 1)).
Proof.
  intros Hf Hch Hs Hk u. unfold run_once.
  rewrite (run_loop_command e p rest Hf Hs), (handle_kill e p _ Hk).
  destruct (log_request_known_channel e p (env_get_user e (p_user_id p)) Hch)
    as [line Hl].
  rewrite Hl. fold u. unfold do_kill.
  split; intro Hop.
  - assert (Hn : existsb (String.eqb (u_username u)) operators = false).
    { destruct (existsb _ _) eqn:E; [|reflexivity].
      exfalso. apply Hop. now apply existsb_operators. }
    rewrite Hn. split; reflexivity.
  - apply existsb_operators in Hop. rewrite Hop. split; reflexivity.
Qed.

Lemma kill_only_by_operators_witness :
  let p := sample_post "op-id" "@paperbot kill" in
  let e := sample_env (fun l => l) in
  let u := env_get_user e (p_user_id p) in
  (~ In (u_username u) operators ->
     posted (run_once e [p]) = [] /\ snd (run_once e [p]) = Ok tt) /\
  (In (u_username u) operators ->
     posted (run_once e [p]) = [] /\ snd (run_once e [p]) = Err (SystemExit 1)).
Proof.
  apply (kill_only_by_operators (sample_env (fun l => l))
           (sample_post "op-id" "@paperbot kill") []);
    vm_compute; first [reflexivity | tauto].
Defined.

(** C8. Once the loop reaches a surviving message that starts with the
    mention, that message is dispatched as a command and the cycle ends:
    whatever follows it in the batch makes no difference. *)
Theorem first_command_ends_cycle (e : env) (pre rest : list post) (p : post) :
  filter_posts e p = true ->
  message_starts_with_mentioning_bot e p = true ->
  run_once e (pre ++ p :: rest) = run_once e (pre ++ [p]).
Proof.
  intros Hf Hs. unfold run_once.
  induction pre as [|a pre IH]; cbn [app].
  - rewrite !(run_loop_command e p _ Hf Hs). reflexivity.
  - cbn [run_loop]. destruct (filter_posts e a); cbn [negb]; [|exact IH].
    destruct (message_starts_with_mentioning_bot e a); [reflexivity|].
    rewrite IH. reflexivity.
Qed.

Lemma first_command_ends_cycle_witness :
  run_once (sample_env (fun l => l))
    ([sample_post "alice-id" "hello"] ++
     sample_post "alice-id" "@paperbot help" :: [sample_post "alice-id" "[P1234]"])
  = run_once (sample_env (fun l => l))
      ([sample_post "alice-id" "hello"] ++ [sample_post "alice-id" "@paperbot help"]).
Proof.
  apply first_command_ends_cycle; vm_compute; reflexivity.
Defined.

Lemma skipped_message_invisible (e : env) (m : post) (pre rest : list post) :
  filter_posts e m = false ->
  run_loop e (pre ++ m :: rest) = run_loop e (pre ++ rest).
Proof.
  intro Hf. induction pre as [|a pre IH]; cbn [app].
  - cbn [run_loop]. rewrite Hf. reflexivity.
  - cbn [run_loop]. destruct (filter_posts e a); cbn [negb]; [|exact IH].
    destruct (message_starts_with_mentioning_bot e a); [reflexivity|].
    rewrite IH. reflexivity.
Qed.

Lemma no_brackets_in_x (p : post) :
  p_message p = "x" -> collect_references_from_message p false = [].
Proof.
  intro H. unfold collect_references_from_message. rewrite H.
  vm_compute. reflexivity.
Qed.

(** C9. A message of the batch is skipped exactly when it was edited, is
    the bot's own, was created more than a minute before the current time,
    or belongs to a thread; a skipped message changes nothing in the cycle,
    wherever it sits in the batch. A message with none of these attributes
    is processed, and there is a text for which it is answered (given a
    set iteration order that lists no element for the empty set). *)
Theorem skip_conditions (e : env) (m : post) :
  (filter_posts e m = false <->
     p_update_at m <> p_create_at m \/
     p_user_id m = u_id (env_me e) \/
     (p_create_at m * 1000 < env_now_us e - 60000000)%Z \/
     p_root_id m <> EmptyString) /\
  (filter_posts e m = false ->
     forall pre rest, run_once e (pre ++ m :: rest) = run_once e (pre ++ rest)) /\
  (filter_posts e m = true -> env_set_order e [] = [] ->
     exists s, posted (run_once e [with_message m s]) <> []).
Proof.
  split; [|split].
  - unfold filter_posts, is_update_message, is_message_from_bot,
      posted_more_than_a_minute_ago, is_message_in_thread.
    rewrite negb_false_iff, !orb_true_iff, !negb_true_iff, Z.eqb_neq,
      String.eqb_eq, Z.ltb_lt, String.eqb_neq.
    tauto.
  - intros Hf pre rest. unfold run_once. apply skipped_message_invisible, Hf.
  - intros Hf Ho. exists "x".
    set (m' := with_message m "x").
    assert (Hf' : filter_posts e m' = true) by exact Hf.
    assert (Hc : str_contains (mention e) (p_message m') = false).
    { unfold mention. reflexivity. }
    assert (Hs : message_starts_with_mentioning_bot e m' = false).
    { unfold message_starts_with_mentioning_bot, mention. reflexivity. }
    unfold run_once. cbn [run_loop]. rewrite Hf', Hc, Hs. cbn [negb].
    unfold handle_paper_request.
    rewrite (no_brackets_in_x m' eq_refl).
    change (deduplicate []) with (@nil string). rewrite Ho.
    unfold posted. cbn. discriminate.
Qed.

Lemma skip_conditions_witness :
  (run_once (sample_env (fun l => l))
     [mk_post "post-2" "chan" "" "bot-id" "[P1234]" 1699999999000%Z 1699999999000%Z;
      mk_post "post-3" "chan" "" "alice-id" "[P1234]" 1699999999000%Z 1699999999500%Z;
      sample_post "alice-id" "@paperbot help"]
   = run_once (sample_env (fun l => l)) [sample_post "alice-id" "@paperbot help"]) /\
  (posted (run_once (sample_env (fun l => l)) [sample_post "alice-id" "@paperbot help"])
   <> []).
Proof.
  set (se := sample_env (fun l => l)).
  set (own := mk_post "post-2" "chan" "" "bot-id" "[P1234]" 1699999999000%Z 1699999999000%Z).
  set (edited := mk_post "post-3" "chan" "" "alice-id" "[P1234]"
                         1699999999000%Z 1699999999500%Z).
  set (fresh := sample_post "alice-id" "@paperbot help").
  assert (H1 : p_user_id own = u_id (env_me se)) by reflexivity.
  assert (H2 : p_update_at edited <> p_create_at edited) by (cbv; discriminate).
  pose proof (skip_conditions se own) as [[_ S1] [R1 _]].
  pose proof (skip_conditions se edited) as [[_ S2] [R2 _]].
  split.
  - transitivity (run_once se [edited; fresh]).
    + exact (R1 (S1 (or_intror (or_introl H1))) [] [edited; fresh]).
    + exact (R2 (S2 (or_introl H2)) [] [fresh]).
  - vm_compute. discriminate.
Defined.

(** ** Further properties: the reference index and its refresh *)

Lemma dget_app {V} (k : string) (l1 l2 : dict V) :
  dget k (l1 ++ l2) = match dget k l1 with Some v => Some v | None => dget k l2 end.
Proof.
  induction l1 as [|[k' v'] l1 IH]; simpl; [reflexivity|].
  destruct (String.eqb k k'); [reflexivity | exact IH].
Qed.

Lemma dget_in {V} (k : string) (v : V) (d : dict V) : dget k d = Some v -> In (k, v) d.
Proof.
  induction d as [|[k' v'] d IH]; simpl; [discriminate|].
  destruct (String.eqb_spec k k') as [->|_]; intro H.
  - injection H as ->. now left.
  - right. now apply IH.
Qed.

Lemma dget_none {V} (k : string) (d : dict V) : dget k d = None <-> ~ In k (map fst d).
Proof.
  induction d as [|[k' v'] d IH]; simpl; [tauto|].
  destruct (String.eqb_spec k k') as [->|Hne].
  - split; [discriminate | intro H; exfalso; apply H; now left].
  - rewrite IH. split; intros H H'; apply H; [destruct H' as [H'|H']; [congruence|exact H'] | now right].
Qed.

Lemma dmem_existsb {V} (k : string) (d : dict V) :
  dmem k d = existsb (String.eqb k) (map fst d).
Proof.
  unfold dmem. induction d as [|[k' v'] d IH]; simpl; [reflexivity|].
  destruct (String.eqb k k'); [reflexivity | exact IH].
Qed.

Lemma keys_dset {V} (k : string) (v : V) (d : dict V) :
  map fst (dset k v d) = if dmem k d then map fst d else map fst d ++ [k].
Proof.
  rewrite dmem_existsb. induction d as [|[k' v'] d IH]; simpl; [reflexivity|].
  destruct (String.eqb_spec k k') as [->|Hne]; simpl; [reflexivity|].
  rewrite IH. destruct (existsb _ _); reflexivity.
Qed.

Lemma Forall_dset {V} (Q : string * V -> Prop) (k : string) (v : V) (d : dict V) :
  Forall Q d -> Q (k, v) -> Forall Q (dset k v d).
Proof.
  induction d as [|[k' v'] d IH]; simpl; intros Hd Hq; [now constructor|].
  inversion Hd; subst.
  destruct (String.eqb k k'); constructor; auto.
Qed.

Lemma dset_dset {V} (k : string) (v v0 : V) (d : dict V) :
  dset k v (dset k v0 d) = dset k v d.
Proof.
  induction d as [|[k' v'] d IH]; simpl.
  - now rewrite String.eqb_refl.
  - destruct (String.eqb k k') eqn:E; simpl; rewrite ?String.eqb_refl, ?E, ?IH; reflexivity.
Qed.

Lemma rebuild_step_eq (idx : index_t) (id : string) (inf : info) :
  rebuild_step idx (id, inf) =
  let grp0 := match dget (base_of id) idx with Some g => g | None => [] end in
  match dget latest_key (dset id (SRecord inf) grp0) with
  | Some (SRecord _) => Err TypeError
  | _ => Ok (dset (base_of id) (dset latest_key (SLatest id) (dset id (SRecord inf) grp0)) idx)
  end.
Proof.
  unfold rebuild_step, base_of.
  destruct (extract_reference_and_revision_from_id id) as [ref rev]. cbn [fst].
  assert (H0 : (0 <=? rev)%N = true) by (apply N.leb_le; lia).
  destruct (dmem ref idx) eqn:Em.
  - destruct (dget latest_key _) as [[r|l]|]; cbn; rewrite ?H0; reflexivity.
  - assert (Hn : dget ref idx = None)
      by (unfold dmem in Em; destruct (dget ref idx); congruence).
    rewrite dget_dset_eq, Hn.
    destruct (dget latest_key _) as [[r|l]|]; cbn; rewrite ?H0, ?dset_dset; reflexivity.
Qed.

Lemma rebuild_loop_cons (idx : index_t) (entry : string * info) (p : payload) :
  rebuild_loop idx (entry :: p) =
  match rebuild_step idx entry with Ok i => rebuild_loop i p | Err x => Err x end.
Proof. reflexivity. Qed.

Lemma rebuild_step_shape (idx idx' : index_t) (id : string) (inf : info) :
  rebuild_step idx (id, inf) = Ok idx' ->
  id <> latest_key /\
  idx' = dset (base_of id)
           (dset latest_key (SLatest id)
              (dset id (SRecord inf)
                 (match dget (base_of id) idx with Some g => g | None => [] end))) idx.
Proof.
  rewrite rebuild_step_eq. cbv zeta.
  destruct (dget latest_key (dset id (SRecord inf) _)) as [[r|l]|] eqn:E;
    intro H; try discriminate; injection H as <-;
    (split; [intros ->; rewrite dget_dset_eq in E; discriminate | reflexivity]).
Qed.

Lemma step_get_record (idx idx' : index_t) (id' : string) (inf : info) :
  rebuild_step idx (id', inf) = Ok idx' ->
  forall id, id <> latest_key ->
  get_record idx' id = if String.eqb id id' then Some (SRecord inf) else get_record idx id.
Proof.
  intros H id Hid. destruct (rebuild_step_shape _ _ _ _ H) as [Hid' ->].
  unfold get_record. rewrite dget_dset.
  destruct (String.eqb_spec (base_of id) (base_of id')) as [Eb|Nb].
  - rewrite dget_dset_neq by exact Hid. rewrite dget_dset.
    destruct (String.eqb id id'); [reflexivity|]. rewrite Eb.
    destruct (dget (base_of id') idx); reflexivity.
  - destruct (String.eqb_spec id id') as [->|]; [congruence | reflexivity].
Qed.

Lemma loop_get_record (p : payload) : forall idx idx',
  rebuild_loop idx p = Ok idx' ->
  forall id, id <> latest_key ->
  get_record idx' id =
  match last_record id p with Some r => Some (SRecord r) | None => get_record idx id end.
Proof.
  induction p as [|[id' inf] p IH]; intros idx idx' H id Hid.
  - injection H as <-. reflexivity.
  - rewrite rebuild_loop_cons in H.
    destruct (rebuild_step idx (id', inf)) as [idx1|x] eqn:E; [|discriminate].
    rewrite (IH _ _ H id Hid). unfold last_record. simpl rev. rewrite dget_app. simpl dget.
    rewrite (step_get_record _ _ _ _ E id Hid).
    destruct (dget id (rev p)); [reflexivity|].
    destruct (String.eqb id id'); reflexivity.
Qed.

Lemma step_group_none (idx idx' : index_t) (id' : string) (inf : info) :
  rebuild_step idx (id', inf) = Ok idx' ->
  forall b, dget b idx' = None <-> dget b idx = None /\ b <> base_of id'.
Proof.
  intros H b. destruct (rebuild_step_shape _ _ _ _ H) as [_ ->].
  rewrite dget_dset. destruct (String.eqb_spec b (base_of id')) as [->|Hne].
  - split; [discriminate | tauto].
  - tauto.
Qed.

Lemma loop_group_none (p : payload) : forall idx idx',
  rebuild_loop idx p = Ok idx' ->
  forall b, dget b idx' = None <->
            dget b idx = None /\ Forall (fun kv => base_of (fst kv) <> b) p.
Proof.
  induction p as [|[id' inf] p IH]; intros idx idx' H b.
  - injection H as <-. split; [intro E; split; [exact E | constructor] | tauto].
  - rewrite rebuild_loop_cons in H.
    destruct (rebuild_step idx (id', inf)) as [idx1|x] eqn:E; [|discriminate].
    rewrite (IH _ _ H b), (step_group_none _ _ _ _ E b), Forall_cons_iff. simpl.
    split; [intros [[H1 H2] H3] | intros [H1 [H2 H3]]]; repeat split; auto; congruence.
Qed.

Lemma step_latest (idx idx' : index_t) (id' : string) (inf : info) :
  rebuild_step idx (id', inf) = Ok idx' ->
  forall b,
  match dget b idx' with Some g => dget latest_key g | None => None end =
  if String.eqb b (base_of id') then Some (SLatest id')
  else match dget b idx with Some g => dget latest_key g | None => None end.
Proof.
  intros H b. destruct (rebuild_step_shape _ _ _ _ H) as [_ ->].
  rewrite dget_dset. destruct (String.eqb b (base_of id')); [|reflexivity].
  apply dget_dset_eq.
Qed.

Lemma loop_latest (p : payload) : forall idx idx',
  rebuild_loop idx p = Ok idx' ->
  forall b,
  match dget b idx' with Some g => dget latest_key g | None => None end =
  match last_id_with_base b p with
  | Some l => Some (SLatest l)
  | None => match dget b idx with Some g => dget latest_key g | None => None end
  end.
Proof.
  induction p as [|[id' inf] p IH]; intros idx idx' H b.
  - injection H as <-. reflexivity.
  - rewrite rebuild_loop_cons in H.
    destruct (rebuild_step idx (id', inf)) as [idx1|x] eqn:E; [|discriminate].
    rewrite (IH _ _ H b), (step_latest _ _ _ _ E b).
    unfold last_id_with_base. simpl rev. rewrite find_app. simpl find.
    destruct (find _ (rev p)); [reflexivity|]. simpl.
    rewrite (String.eqb_sym (base_of id') b).
    destruct (String.eqb b (base_of id')); reflexivity.
Qed.

Lemma step_keys (idx idx' : index_t) (id' : string) (inf : info) :
  rebuild_step idx (id', inf) = Ok idx' ->
  map fst idx' = add_new (map fst idx) (base_of id').
Proof.
  intro H. destruct (rebuild_step_shape _ _ _ _ H) as [_ ->].
  rewrite keys_dset, dmem_existsb. reflexivity.
Qed.

Lemma loop_keys (p : payload) : forall idx idx',
  rebuild_loop idx p = Ok idx' ->
  map fst idx' = fold_left add_new (map (fun kv => base_of (fst kv)) p) (map fst idx).
Proof.
  induction p as [|[id' inf] p IH]; intros idx idx' H.
  - injection H as <-. reflexivity.
  - rewrite rebuild_loop_cons in H.
    destruct (rebuild_step idx (id', inf)) as [idx1|x] eqn:E; [|discriminate].
    rewrite (IH _ _ H), (step_keys _ _ _ _ E). reflexivity.
Qed.

Lemma rebuild_step_succeeds (idx : index_t) (id : string) (inf : info) :
  index_ok idx -> id <> latest_key -> exists idx', rebuild_step idx (id, inf) = Ok idx'.
Proof.
  intros Hok Hid. rewrite rebuild_step_eq. cbv zeta.
  rewrite dget_dset_neq by (intro E; apply Hid; symmetry; exact E).
  destruct (dget (base_of id) idx) as [g|] eqn:Eg.
  - destruct (Hok _ _ Eg) as [l [r [Hl _]]]. rewrite Hl. eexists. reflexivity.
  - eexists. reflexivity.
Qed.

Lemma base_of_latest_key : base_of latest_key = latest_key.
Proof. vm_compute. reflexivity. Qed.

Lemma loop_result (p : payload) : forall idx, index_ok idx ->
  match rebuild_loop idx p with
  | Ok _ => ~ In latest_key (map fst p)
  | Err x => x = TypeError /\ In latest_key (map fst p)
  end.
Proof.
  induction p as [|[id inf] p IH]; intros idx Hok; [simpl; tauto|].
  rewrite rebuild_loop_cons. cbn [map fst In].
  destruct (String.eqb_spec id latest_key) as [->|Hid].
  - rewrite rebuild_step_eq. cbv zeta. rewrite dget_dset_eq. tauto.
  - destruct (rebuild_step_succeeds idx id inf Hok Hid) as [idx1 E]. rewrite E.
    pose proof (IH idx1 (rebuild_step_ok idx idx1 (id, inf) Hok E)) as IH1.
    destruct (rebuild_loop idx1 p); [|destruct IH1; split; [assumption | now right]].
    intros [H|H]; [congruence | tauto].
Qed.

Lemma Forall_dget {V} (Q : string * V -> Prop) (k : string) (v : V) (d : dict V) :
  Forall Q d -> dget k d = Some v -> Q (k, v).
Proof. intros H E. apply dget_in in E. rewrite Forall_forall in H. now apply H. Qed.

Lemma rebuild_step_good (idx idx' : index_t) (id : string) (inf : info) :
  Forall (fun bg => group_good (snd bg)) idx ->
  i_title inf <> None -> i_type inf <> None ->
  rebuild_step idx (id, inf) = Ok idx' ->
  Forall (fun bg => group_good (snd bg)) idx'.
Proof.
  intros Hidx Ht Hty H. destruct (rebuild_step_shape _ _ _ _ H) as [Hid ->].
  apply Forall_dset; [exact Hidx|]. cbn [snd]. split.
  - exists id, inf. split; [apply dget_dset_eq|].
    rewrite dget_dset_neq by exact Hid. apply dget_dset_eq.
  - apply Forall_dset; [apply Forall_dset|].
    + destruct (dget (base_of id) idx) as [g|] eqn:Eg; [|constructor].
      exact (proj2 (Forall_dget _ _ _ _ Hidx Eg)).
    + unfold slot_good; simpl. auto.
    + reflexivity.
Qed.

Lemma rebuild_loop_good (p : payload) : forall idx idx',
  Forall (fun bg => group_good (snd bg)) idx ->
  Forall (fun kv => i_title (snd kv) <> None /\ i_type (snd kv) <> None) p ->
  rebuild_loop idx p = Ok idx' ->
  Forall (fun bg => group_good (snd bg)) idx'.
Proof.
  induction p as [|[id inf] p IH]; intros idx idx' Hidx Hp H.
  - injection H as <-. exact Hidx.
  - rewrite rebuild_loop_cons in H. inversion Hp as [|? ? [Ht Hty] Hp']; subst.
    destruct (rebuild_step idx (id, inf)) as [idx1|x] eqn:E; [|discriminate].
    exact (IH idx1 idx' (rebuild_step_good _ _ _ _ Hidx Ht Hty E) Hp' H).
Qed.

Lemma keyword_items_good (g : group_t) :
  Forall slot_good g -> exists l, keyword_items g = Ok l.
Proof.
  induction g as [|[k v] g IH]; intro H; [now exists []|].
  inversion H as [|? ? Hkv Hg]; subst. destruct (IH Hg) as [l Hl].
  cbn [keyword_items]. destruct (String.eqb_spec k latest_key) as [->|Hk]; [now exists l|].
  unfold slot_good in Hkv. cbn [fst snd] in Hkv.
  destruct v as [r|l'].
  - destruct Hkv as [_ [Ht _]]. unfold keyword_item.
    destruct (i_title r) as [t|]; [|congruence].
    cbn. rewrite Hl. eexists. reflexivity.
  - congruence.
Qed.

Lemma make_entry_good (reference : string) (g : group_t) :
  group_good g -> exists e, make_entry reference g = Ok e.
Proof.
  intros [[l [r [Hl Hr]]] Hg]. unfold make_entry, dindex. rewrite Hl. simpl.
  rewrite Hr. simpl.
  destruct (Forall_dget _ _ _ _ Hg Hr) as [_ [_ Hty]].
  destruct (i_type r) as [ty|]; [|congruence]. simpl.
  destruct (keyword_items_good g Hg) as [items Hi]. rewrite Hi. eexists. reflexivity.
Qed.

Lemma rebuild_search_index_good (idx : index_t) :
  Forall (fun bg => group_good (snd bg)) idx ->
  exists sidx, rebuild_search_index idx = Ok sidx.
Proof.
  induction idx as [|[b g] idx IH]; intro H; [now exists []|].
  inversion H as [|? ? Hg Hidx]; subst.
  destruct (make_entry_good b g Hg) as [e He]. destruct (IH Hidx) as [sidx Hs].
  simpl. rewrite He. simpl. rewrite Hs. eexists. reflexivity.
Qed.

Lemma make_entry_id (reference : string) (g : group_t) (e : search_entry) :
  make_entry reference g = Ok e -> e_id e = reference.
Proof.
  unfold make_entry. destruct (dindex latest_key g) as [[r|l]|]; simpl; try discriminate.
  destruct (dindex l g) as [[r|l']|]; simpl; try discriminate.
  destruct (i_type r); simpl; try discriminate.
  destruct (keyword_items g); simpl; try discriminate.
  intro H. injection H as <-. reflexivity.
Qed.

Lemma rebuild_search_index_ids (idx : index_t) (sidx : list search_entry) :
  rebuild_search_index idx = Ok sidx -> map e_id sidx = map fst idx.
Proof.
  revert sidx. induction idx as [|[b g] idx IH]; simpl; intros sidx H.
  - injection H as <-. reflexivity.
  - destruct (make_entry b g) as [e|x] eqn:He; simpl in H; [|discriminate].
    destruct (rebuild_search_index idx) as [s|x] eqn:Hs; simpl in H; [|discriminate].
    injection H as <-. simpl. rewrite (make_entry_id _ _ _ He), (IH s eq_refl). reflexivity.
Qed.

Lemma try_refresh_parts (p : payload) (pi : paper_index) :
  try_refresh_index (Ok p) = Ok pi ->
  rebuild_index p = Ok (pi_index pi) /\
  rebuild_search_index (pi_index pi) = Ok (pi_search_index pi).
Proof.
  unfold try_refresh_index. simpl.
  destruct (rebuild_index p) as [idx|x]; simpl; [|discriminate].
  destruct (rebuild_search_index idx) as [s|x] eqn:Es; simpl; [|discriminate].
  intro H. injection H as <-. split; [reflexivity | exact Es].
Qed.

Lemma fetch_info_for_ok (p : payload) (pi : paper_index) (r : string) :
  try_refresh_index (Ok p) = Ok pi -> fetch_info_for (Ok p) r = lookup_info (pi_index pi) r.
Proof. unfold fetch_info_for. intro H. rewrite H. reflexivity. Qed.

Lemma lookup_info_match (idx : index_t) (r : string) (cs : captures) (rest : string) :
  re_match reference_and_revision_regex r = Some (cs, rest) ->
  lookup_info idx r =
  Ok (match get_record idx r with Some v => (r, Some v) | None => (r, None) end).
Proof.
  intro H. unfold lookup_info, extract_reference_and_key_from_ref_or_id, get_record, base_of,
    extract_reference_and_revision_from_id.
  rewrite H. simpl.
  destruct (dget (group_or_empty 1 cs) idx) as [g|]; [|reflexivity].
  destruct (dget r g); reflexivity.
Qed.

Lemma regex_rejects_latest_key : re_match reference_and_revision_regex latest_key = None.
Proof. vm_compute. reflexivity. Qed.

Lemma rebuild_index_no_latest_key (p : payload) (idx : index_t) :
  rebuild_index p = Ok idx -> ~ In latest_key (map fst p).
Proof.
  intro H. pose proof (loop_result p [] ltac:(intros b g E; discriminate E)) as R.
  unfold rebuild_index in H. rewrite H in R. exact R.
Qed.

Lemma in_keys_rev (k : string) (p : payload) : In k (map fst (rev p)) <-> In k (map fst p).
Proof. rewrite map_rev. split; [apply in_rev | intro H; now apply in_rev in H]. Qed.

Lemma add_new_nodup (l : list string) : forall acc,
  NoDup acc -> NoDup (fold_left add_new l acc).
Proof.
  induction l as [|x l IH]; simpl; intros acc H; [exact H|].
  apply IH. unfold add_new. destruct (existsb (String.eqb x) acc) eqn:E; [exact H|].
  apply Permutation_NoDup with (l := x :: acc); [apply Permutation_cons_append|].
  constructor; [|exact H].
  intro Hin. assert (existsb (String.eqb x) acc = true) by
    (apply existsb_exists; exists x; split; [exact Hin | apply String.eqb_refl]).
  congruence.
Qed.

(** A reference with a revision suffix ([re.match(r'(.+)R(\d+)')] succeeds)
    is looked up under its own id: after a refresh from a feed, it yields
    that id with the record the feed gives it (the last one given). *)
Theorem fetch_revision_id (p : payload) (pi : paper_index) (id : string) (r : info) :
  try_refresh_index (Ok p) = Ok pi ->
  re_match reference_and_revision_regex id <> None ->
  last_record id p = Some r ->
  fetch_info_for (Ok p) id = Ok (id, Some (SRecord r)).
Proof.
  intros H Hm Hr. rewrite (fetch_info_for_ok _ _ _ H).
  destruct (try_refresh_parts _ _ H) as [Hi _].
  destruct (re_match reference_and_revision_regex id) as [[cs rest]|] eqn:E; [|congruence].
  rewrite (lookup_info_match _ _ _ _ E).
  assert (Hid : id <> latest_key)
    by (intros ->; rewrite regex_rejects_latest_key in E; discriminate).
  rewrite (loop_get_record p [] _ Hi id Hid), Hr. reflexivity.
Qed.

Lemma fetch_revision_id_witness :
  fetch_info_for (Ok sample_payload) "P1234R1"
  = Ok ("P1234R1", Some (SRecord (sample_paper "Rev 1"))).
Proof.
  apply (fetch_revision_id sample_payload sample_refreshed "P1234R1" (sample_paper "Rev 1")).
  - vm_compute. reflexivity.
  - vm_compute. discriminate.
  - vm_compute. reflexivity.
Defined.

(** A reference without a revision suffix under which the feed files some
    ids is looked up through the latest pointer of its group: it yields the
    id filed under it that came last in the feed, with that id's record. *)
Theorem fetch_base_reference (p : payload) (pi : paper_index) (b l : string) :
  try_refresh_index (Ok p) = Ok pi ->
  re_match reference_and_revision_regex b = None ->
  last_id_with_base b p = Some l ->
  exists r, last_record l p = Some r /\ fetch_info_for (Ok p) b = Ok (l, Some (SRecord r)).
Proof.
  intros H Hb Hl. rewrite (fetch_info_for_ok _ _ _ H).
  destruct (try_refresh_parts _ _ H) as [Hi _]. set (idx := pi_index pi) in *.
  pose proof (rebuild_index_no_latest_key _ _ Hi) as Hno.
  pose proof (loop_latest p [] idx Hi b) as Hlat. rewrite Hl in Hlat.
  unfold last_id_with_base in Hl.
  destruct (find _ (rev p)) as [[l' inf]|] eqn:F; [|discriminate].
  injection Hl as <-. apply find_some in F. destruct F as [Fin Fb].
  apply String.eqb_eq in Fb. cbn [fst] in Fb.
  assert (Hin : In l' (map fst p))
    by (apply in_keys_rev; apply (in_map fst) in Fin; exact Fin).
  destruct (last_record l' p) as [r|] eqn:Hr.
  2:{ exfalso. unfold last_record in Hr. apply dget_none in Hr. apply Hr.
      now apply in_keys_rev. }
  exists r. split; [reflexivity|].
  assert (Hl'k : l' <> latest_key) by (intros ->; exact (Hno Hin)).
  pose proof (loop_get_record p [] idx Hi l' Hl'k) as Hg. rewrite Hr in Hg.
  unfold get_record in Hg. rewrite Fb in Hg.
  destruct (dget b idx) as [g|] eqn:Eg; [|discriminate].
  unfold lookup_info, extract_reference_and_key_from_ref_or_id. rewrite Hb, Eg, Hlat.
  cbn. rewrite Eg, Hg. reflexivity.
Qed.

Lemma fetch_base_reference_witness :
  exists r, last_record "P1234R1" sample_payload = Some r /\
  fetch_info_for (Ok sample_payload) "P1234" = Ok ("P1234R1", Some (SRecord r)).
Proof.
  apply (fetch_base_reference sample_payload sample_refreshed "P1234" "P1234R1").
  - vm_compute. reflexivity.
  - vm_compute. reflexivity.
  - vm_compute. reflexivity.
Defined.

(** A reference that is not an id of the feed and under which the feed
    files no id is not found: the lookup yields the reference itself with no
    record, and the reply line for it is the not-found message. *)
Theorem fetch_unknown_reference (p : payload) (pi : paper_index) (r : string) :
  try_refresh_index (Ok p) = Ok pi ->
  ~ In r (map fst p) ->
  Forall (fun kv => base_of (fst kv) <> r) p ->
  fetch_info_for (Ok p) r = Ok (r, None) /\
  create_and_format r None =
  Ok (":mag: | Sorry, I could not find an issue or paper called `" +++ r +++ "` :worried:").
Proof.
  intros H Hr Hb. split; [|reflexivity].
  rewrite (fetch_info_for_ok _ _ _ H).
  destruct (try_refresh_parts _ _ H) as [Hi _]. set (idx := pi_index pi) in *.
  destruct (re_match reference_and_revision_regex r) as [[cs rest]|] eqn:E.
  - rewrite (lookup_info_match _ _ _ _ E).
    assert (Hk : r <> latest_key)
      by (intros ->; rewrite regex_rejects_latest_key in E; discriminate).
    rewrite (loop_get_record p [] idx Hi r Hk).
    assert (Hn : last_record r p = None)
      by (unfold last_record; apply dget_none; rewrite in_keys_rev; exact Hr).
    rewrite Hn. reflexivity.
  - assert (Hg : dget r idx = None)
      by (apply (loop_group_none p [] idx Hi r); split; [reflexivity | exact Hb]).
    unfold lookup_info, extract_reference_and_key_from_ref_or_id. rewrite E, Hg.
    cbn. rewrite Hg. reflexivity.
Qed.

Lemma fetch_unknown_reference_witness :
  fetch_info_for (Ok sample_payload) "P9999" = Ok ("P9999", None) /\
  create_and_format "P9999" None =
  Ok (":mag: | Sorry, I could not find an issue or paper called `" +++ "P9999" +++ "` :worried:").
Proof.
  apply (fetch_unknown_reference sample_payload sample_refreshed "P9999").
  - vm_compute. reflexivity.
  - vm_compute. intros [H|[H|[H|H]]]; try discriminate; exact H.
  - vm_compute. repeat constructor; discriminate.
Defined.

(** Rebuilding the index from a feed fails exactly when the feed has an
    entry with the id ['_'], the key the index uses for its latest
    pointers: it then raises [TypeError], and so does every lookup. *)
Theorem rebuild_fails_on_underscore_id (p : payload) :
  match rebuild_index p with
  | Ok _ => ~ In "_" (map fst p)
  | Err x => x = TypeError /\ In "_" (map fst p)
  end /\
  (In "_" (map fst p) -> forall r, fetch_info_for (Ok p) r = Err TypeError).
Proof.
  pose proof (loop_result p [] ltac:(intros b g E; discriminate E)) as R.
  split; [exact R|].
  intros Hin r. unfold fetch_info_for, try_refresh_index, rebuild_index in *. cbn.
  destruct (rebuild_loop [] p) as [idx|x]; [contradiction|].
  destruct R as [-> _]. reflexivity.
Qed.

(** After a refresh, the index has one group per base reference and the
    search index one entry per group, both in the order in which the feed
    first mentions each base. *)
Theorem refresh_one_entry_per_base (p : payload) (pi : paper_index) :
  try_refresh_index (Ok p) = Ok pi ->
  map fst (pi_index pi) = first_occurrences (map (fun kv => base_of (fst kv)) p) /\
  map e_id (pi_search_index pi) = first_occurrences (map (fun kv => base_of (fst kv)) p) /\
  NoDup (map e_id (pi_search_index pi)).
Proof.
  intro H. destruct (try_refresh_parts _ _ H) as [Hi Hs].
  pose proof (loop_keys p [] _ Hi) as Hk. cbn [map] in Hk.
  rewrite (rebuild_search_index_ids _ _ Hs), Hk.
  split; [reflexivity|]. split; [reflexivity|].
  apply add_new_nodup. constructor.
Qed.

Lemma refresh_one_entry_per_base_witness :
  map fst (pi_index sample_refreshed) = ["P1234"; "N4000"] /\
  map e_id (pi_search_index sample_refreshed) = ["P1234"; "N4000"] /\
  NoDup (map e_id (pi_search_index sample_refreshed)).
Proof.
  destruct (refresh_one_entry_per_base sample_payload sample_refreshed
              ltac:(vm_compute; reflexivity)) as [H1 [H2 H3]].
  rewrite H1, H2. split; [vm_compute; reflexivity|]. split; [vm_compute; reflexivity|].
  exact H3.
Defined.

(** A refresh succeeds when no entry of the feed has the id ['_'] and every
    record has a title and a type. *)
Theorem refresh_succeeds (p : payload) :
  ~ In "_" (map fst p) ->
  Forall (fun kv => i_title (snd kv) <> None /\ i_type (snd kv) <> None) p ->
  exists pi, try_refresh_index (Ok p) = Ok pi.
Proof.
  intros Hno Hp.
  pose proof (loop_result p [] ltac:(intros b g E; discriminate E)) as R.
  destruct (rebuild_loop [] p) as [idx|x] eqn:Hi; [|destruct R; contradiction].
  destruct (rebuild_search_index_good idx
              (rebuild_loop_good p [] idx (Forall_nil _) Hp Hi)) as [sidx Hs].
  exists (mk_paper_index idx sidx).
  unfold try_refresh_index, rebuild_index. cbn. rewrite Hi. cbn. rewrite Hs. reflexivity.
Qed.

Lemma refresh_succeeds_witness :
  exists pi, try_refresh_index (Ok sample_payload) = Ok pi.
Proof.
  apply refresh_succeeds.
  - vm_compute. intros [H|[H|[H|H]]]; try discriminate; exact H.
  - repeat constructor; discriminate.
Defined.

(** ** Further properties: search, command words, references and formatting *)


Lemma search_filter_date (d : Z) (x : search_entry) (l : list search_entry) :
  filter (fun y => Z.eqb (e_date y) d) (insert_desc x l) =
  if Z.eqb (e_date x) d then x :: filter (fun y => Z.eqb (e_date y) d) l
  else filter (fun y => Z.eqb (e_date y) d) l.
Proof.
  induction l as [|y t IH]; simpl.
  - destruct (Z.eqb (e_date x) d); reflexivity.
  - destruct (Z.leb (e_date y) (e_date x)) eqn:Hle; simpl.
    + reflexivity.
    + rewrite IH. apply Z.leb_gt in Hle.
      destruct (Z.eqb (e_date x) d) eqn:Hx, (Z.eqb (e_date y) d) eqn:Hy; try reflexivity.
      apply Z.eqb_eq in Hx; apply Z.eqb_eq in Hy; lia.
Qed.

Lemma sort_desc_filter_date (d : Z) (l : list search_entry) :
  filter (fun y => Z.eqb (e_date y) d) (sort_desc l) = filter (fun y => Z.eqb (e_date y) d) l.
Proof.
  induction l as [|x t IH]; simpl; [reflexivity|].
  rewrite search_filter_date, IH. reflexivity.
Qed.

Lemma lower_c_not_upper (c : ascii) : is_upper (lower_c c) = false.
Proof. destruct c as [[] [] [] [] [] [] [] []]; reflexivity. Qed.

Lemma upper_c_not_lower (c : ascii) : is_lower_c (upper_c c) = false.
Proof. destruct c as [[] [] [] [] [] [] [] []]; reflexivity. Qed.

Lemma lower_has_no_upper (s : string) : str_exists is_upper (lower s) = false.
Proof. unfold lower; induction s as [|c t IH]; simpl; [reflexivity|]. now rewrite lower_c_not_upper, IH. Qed.

Lemma upper_has_no_lower (s : string) :
  str_forall (fun c => negb (is_lower_c c)) (upper s) = true.
Proof. unfold upper; induction s as [|c t IH]; simpl; [reflexivity|]. now rewrite upper_c_not_lower, IH. Qed.

Lemma str_prefix_exists (p : ascii -> bool) (k s : string) :
  str_prefix k s = true -> str_exists p k = true -> str_exists p s = true.
Proof.
  revert s; induction k as [|a k IH]; intros s Hpre Hex; [discriminate|].
  destruct s as [|b s]; [discriminate|].
  simpl in *. apply andb_prop in Hpre as [Hab Hk]. apply Ascii.eqb_eq in Hab; subst b.
  apply orb_true_iff in Hex as [Ha|Hk']; [now rewrite Ha|].
  rewrite (IH s Hk Hk'). apply orb_true_r.
Qed.

Lemma str_contains_exists (p : ascii -> bool) (k s : string) :
  str_contains k s = true -> str_exists p k = true -> str_exists p s = true.
Proof.
  induction s as [|c t IH]; intros Hc Hex; simpl in Hc.
  - rewrite orb_false_r in Hc. exact (str_prefix_exists p k _ Hc Hex).
  - apply orb_true_iff in Hc as [Hpre|Ht].
    + exact (str_prefix_exists p k _ Hpre Hex).
    + simpl. rewrite (IH Ht Hex). apply orb_true_r.
Qed.

Lemma str_forall_app (p : ascii -> bool) (a b : string) :
  str_forall p (a +++ b) = str_forall p a && str_forall p b.
Proof. induction a as [|c t IH]; simpl; [reflexivity|]. now rewrite IH, andb_assoc. Qed.

Lemma str_app_assoc (a b c : string) : a +++ (b +++ c) = (a +++ b) +++ c.
Proof. induction a as [|x t IH]; simpl; [reflexivity|]. now rewrite IH. Qed.

Lemma str_app_nil (a : string) : a +++ EmptyString = a.
Proof. induction a as [|x t IH]; simpl; [reflexivity|]. now rewrite IH. Qed.

Lemma str_forall_impl (p q : ascii -> bool) (s : string) :
  (forall c, p c = true -> q c = true) -> str_forall p s = true -> str_forall q s = true.
Proof.
  intro Hpq; induction s as [|c t IH]; simpl; [reflexivity|].
  intro H; apply andb_prop in H as [Hc Ht]. now rewrite (Hpq c Hc), (IH Ht).
Qed.

Lemma split_pieces_spec (cur : string) (b : bool) (s : string) :
  str_forall (fun c => negb (is_token_sep c)) cur = true ->
  Forall (fun t => str_forall (fun c => negb (is_token_sep c)) t = true) (split_pieces cur b s) /\
  concat_str (split_pieces cur b s) = cur +++ str_filter (fun c => negb (is_token_sep c)) s.
Proof.
  revert cur b; induction s as [|c t IH]; intros cur b Hcur; simpl.
  - split; [now constructor|]. simpl. reflexivity.
  - destruct (is_token_sep c) eqn:Hsep; simpl.
    + destruct b.
      * exact (IH cur true Hcur).
      * destruct (IH EmptyString true eq_refl) as [Hf Hc].
        split; [now constructor|]. simpl. rewrite Hc. reflexivity.
    + assert (Hcur' : str_forall (fun c => negb (is_token_sep c)) (cur +++ String c EmptyString) = true)
        by (rewrite str_forall_app, Hcur; simpl; now rewrite Hsep).
      destruct (IH (cur +++ String c EmptyString) false Hcur') as [Hf Hc].
      split; [exact Hf|]. rewrite Hc, <- str_app_assoc. reflexivity.
Qed.

Lemma str_forall_list (p : ascii -> bool) (l : list ascii) :
  str_forall p (string_of_list_ascii l) = forallb p l.
Proof. induction l as [|c t IH]; simpl; [reflexivity|]. now rewrite IH. Qed.

Lemma drop_spaces_id (s : string) :
  str_forall (fun c => negb (is_space c)) s = true -> drop_spaces s = s.
Proof.
  destruct s as [|c t]; simpl; [reflexivity|].
  intro H; apply andb_prop in H as [Hc _]. apply negb_true_iff in Hc. now rewrite Hc.
Qed.

Lemma strip_id (s : string) :
  str_forall (fun c => negb (is_space c)) s = true -> strip s = s.
Proof.
  intro H. unfold strip, rstrip. rewrite (drop_spaces_id s H).
  rewrite drop_spaces_id.
  - rewrite list_ascii_of_string_of_list_ascii, rev_involutive.
    apply string_of_list_ascii_of_string.
  - rewrite str_forall_list. apply forallb_forall. intros c Hin.
    apply in_rev in Hin.
    rewrite <- (string_of_list_ascii_of_string s), str_forall_list in H.
    rewrite forallb_forall in H. exact (H c Hin).
Qed.

Lemma tokens_filter (l : list string) :
  Forall (fun t => str_forall (fun c => negb (is_token_sep c)) t = true) l ->
  Forall (fun t => t <> EmptyString /\ str_forall (fun c => negb (is_token_sep c)) t = true)
         (filter (fun token => 1 <=? String.length (strip token)) l) /\
  concat_str (filter (fun token => 1 <=? String.length (strip token)) l) = concat_str l.
Proof.
  induction l as [|t l IH]; intro Hall; [split; [constructor|reflexivity]|].
  inversion Hall as [|? ? Ht Hl]; subst.
  destruct (IH Hl) as [IHf IHc].
  assert (Hs : strip t = t).
  { apply strip_id, (str_forall_impl (fun c => negb (is_token_sep c)) _ t); [|exact Ht].
    intros c Hc. unfold is_token_sep in Hc. apply negb_true_iff in Hc.
    apply orb_false_iff in Hc as [Hsp _]. now rewrite Hsp. }
  destruct t as [|c t'].
  - change (filter (fun token => 1 <=? String.length (strip token)) (EmptyString :: l))
      with (filter (fun token => 1 <=? String.length (strip token)) l).
    split; [exact IHf|exact IHc].
  - cbn [filter]. rewrite Hs. change (1 <=? String.length (String c t')) with true.
    split; [constructor; [split; [discriminate|exact Ht]|exact IHf]|].
    unfold concat_str in *. cbn [fold_right]. now rewrite IHc.
Qed.




Lemma substring_forall (p : ascii -> bool) (s : string) (n m : nat) :
  str_forall p s = true -> str_forall p (substring n m s) = true.
Proof.
  revert n m; induction s as [|c t IH]; intros n m H; destruct n, m; simpl in *; auto.
  apply andb_prop in H as [Hc Ht]. rewrite Hc. simpl. now apply IH.
  all: apply andb_prop in H as [Hc Ht]; now apply IH.
Qed.

Lemma plus_rests_forall (p q : ascii -> bool) (s t : string) :
  str_forall p s = true -> In t (plus_rests q s) -> str_forall p t = true.
Proof.
  induction s as [|c u IH]; simpl; [intros _ []|].
  intros H Hin. apply andb_prop in H as [_ Hu].
  destruct (q c); [|destruct Hin].
  apply in_app_iff in Hin as [Hin|[<-|[]]]; [exact (IH Hu Hin)|exact Hu].
Qed.

Lemma run_forall (p : ascii -> bool) (r : regex) (s : string) :
  str_forall p s = true ->
  Forall (fun m => caps_ok p (fst m) /\ str_forall p (snd m) = true) (run r s).
Proof.
  revert s; induction r as [q|r1 IH1 r2 IH2|r1 IH1 r2 IH2|r1 IH1|q|n r1 IH1]; intros s Hs; simpl.
  - destruct s as [|c t]; [constructor|]. destruct (q c); [|constructor].
    simpl in Hs. apply andb_prop in Hs as [_ Ht].
    constructor; [split; [constructor|exact Ht]|constructor].
  - apply Forall_forall. intros m Hm. apply in_flat_map in Hm as [m1 [Hm1 Hm]].
    apply in_map_iff in Hm as [m2 [<- Hm2]].
    pose proof (proj1 (Forall_forall _ _) (IH1 s Hs) m1 Hm1) as [Hc1 Hr1].
    pose proof (proj1 (Forall_forall _ _) (IH2 _ Hr1) m2 Hm2) as [Hc2 Hr2].
    split; [apply Forall_app; split; assumption|exact Hr2].
  - apply Forall_app; split; [exact (IH1 s Hs)|exact (IH2 s Hs)].
  - apply Forall_app; split; [exact (IH1 s Hs)|].
    constructor; [split; [constructor|exact Hs]|constructor].
  - apply Forall_forall. intros m Hm. apply in_map_iff in Hm as [t [<- Ht]].
    split; [constructor|exact (plus_rests_forall p q s t Hs Ht)].
  - apply Forall_forall. intros m Hm. apply in_map_iff in Hm as [m1 [<- Hm1]].
    pose proof (proj1 (Forall_forall _ _) (IH1 s Hs) m1 Hm1) as [Hc1 Hr1].
    split; [constructor; [exact (substring_forall p s _ _ Hs)|exact Hc1]|exact Hr1].
Qed.

Lemma finditer_fuel_forall (p : ascii -> bool) (f : nat) (r : regex) (s : string) :
  str_forall p s = true -> Forall (caps_ok p) (finditer_fuel f r s).
Proof.
  revert s; induction f as [|f IH]; intros s Hs; simpl; [constructor|].
  assert (Htl : forall c t, s = String c t -> str_forall p t = true)
    by (intros c t ->; simpl in Hs; now apply andb_prop in Hs as [_ Ht]).
  unfold re_match. destruct (run (RGroup 0 r) s) as [|[cs rest] ms] eqn:Hrun; simpl.
  - destruct s as [|c t]; [constructor|]. exact (IH t (Htl c t eq_refl)).
  - pose proof (run_forall p (RGroup 0 r) s Hs) as Hall. rewrite Hrun in Hall.
    inversion Hall as [|? ? [Hcs Hrest] _]; subst.
    destruct (String.length rest <? String.length s).
    + constructor; [exact Hcs|exact (IH rest Hrest)].
    + destruct s as [|c t]; constructor; [exact Hcs|constructor|exact Hcs|].
      exact (IH t (Htl c t eq_refl)).
Qed.

Lemma group_or_empty_forall (p : ascii -> bool) (n : nat) (cs : captures) :
  caps_ok p cs -> str_forall p (group_or_empty n cs) = true.
Proof.
  intro H. unfold group_or_empty, group.
  destruct (find (fun kv => Nat.eqb (fst kv) n) cs) as [[k v]|] eqn:Hf; [|reflexivity].
  apply find_some in Hf as [Hin _].
  exact (proj1 (Forall_forall _ _) H (k, v) Hin).
Qed.

Lemma replace_char_app (c : ascii) (by_ a b : string) :
  replace_char c by_ (a +++ b) = replace_char c by_ a +++ replace_char c by_ b.
Proof.
  induction a as [|x t IH]; simpl; [reflexivity|].
  destruct (Ascii.eqb x c); rewrite IH; [apply str_app_assoc|reflexivity].
Qed.

Lemma escape_text_app (a b : string) :
  escape_text (a +++ b) = escape_text a +++ escape_text b.
Proof. unfold escape_text. now rewrite !replace_char_app. Qed.

Lemma escape_text_char (c : ascii) : escape_text (String c EmptyString) = escape_char c.
Proof. destruct c as [[] [] [] [] [] [] [] []]; vm_compute; reflexivity. Qed.

Lemma str_prefix_app (p s : string) : str_prefix p s = true -> exists u, s = p +++ u.
Proof.
  revert s; induction p as [|a p IH]; intros s H; [now exists s|].
  destruct s as [|b s]; [discriminate|]. simpl in H.
  apply andb_prop in H as [Hab Hp]. apply Ascii.eqb_eq in Hab; subst b.
  destruct (IH s Hp) as [u ->]. now exists u.
Qed.

Lemma substring_app_len (p u : string) (n : nat) :
  substring (String.length p) n (p +++ u) = substring 0 n u.
Proof. induction p as [|a p IH]; simpl; [reflexivity|]. exact IH. Qed.

Lemma substring_0_all (u : string) (n : nat) : String.length u <= n -> substring 0 n u = u.
Proof.
  revert n; induction u as [|c u IH]; intros n H; destruct n; simpl in *; try reflexivity.
  - lia.
  - rewrite IH; [reflexivity|lia].
Qed.

Lemma length_app_str (a b : string) : String.length (a +++ b) = String.length a + String.length b.
Proof. induction a as [|c a IH]; simpl; [reflexivity|]. now rewrite IH. Qed.

Lemma split_on_acc_cons (sep cur s : string) (f : nat) :
  exists y ys, split_on_acc sep cur s f = y :: ys.
Proof.
  revert cur s; induction f as [|f IH]; intros cur s; simpl; [eauto|].
  destruct s as [|c t]; [eauto|]. destruct (str_prefix sep (String c t)); eauto.
Qed.

Lemma join_split_on_acc (sep cur s : string) (f : nat) :
  join sep (split_on_acc sep cur s f) = cur +++ s.
Proof.
  revert cur s; induction f as [|f IH]; intros cur s; simpl; [reflexivity|].
  destruct s as [|c t]; [symmetry; apply str_app_nil|].
  destruct (str_prefix sep (String c t)) eqn:Hp.
  - destruct (split_on_acc_cons sep EmptyString
               (substring (String.length sep) (String.length (String c t)) (String c t)) f)
      as [y [ys Hys]].
    assert (Hj : join sep (cur :: y :: ys) = cur +++ sep +++ join sep (y :: ys)) by reflexivity.
    rewrite Hys, Hj, <- Hys, IH. change (EmptyString +++ ?x) with x.
    destruct (str_prefix_app _ _ Hp) as [u Hu]. rewrite Hu.
    rewrite substring_app_len, substring_0_all; [reflexivity|].
    rewrite length_app_str. lia.
  - rewrite IH, <- str_app_assoc. reflexivity.
Qed.


(** PaperIndex.search is stable: the results of one date come in the order
    of the search index. *)
Theorem search_stable_within_date (sidx : list search_entry) (keywords : list string)
  (ty : option string) (d : Z) :
  filter (fun x => Z.eqb (e_date x) d) (search sidx keywords ty) =
  filter (fun x => Z.eqb (e_date x) d) (filter (matches_search keywords ty) sidx).
Proof. unfold search. apply sort_desc_filter_date. Qed.

(** The keywords of a rebuilt search index are lower case, so a keyword with
    an upper-case ASCII letter matches no entry and the search is empty. *)
Theorem search_uppercase_keyword_finds_nothing (idx : index_t) (sidx : list search_entry)
  (keywords : list string) (ty : option string) (k : string) :
  rebuild_search_index idx = Ok sidx ->
  In k keywords -> str_exists is_upper k = true ->
  search sidx keywords ty = [].
Proof.
  intros Hidx Hin Hup. unfold search.
  assert (Hf : filter (matches_search keywords ty) sidx = []).
  { pose proof (rebuild_search_index_lower idx sidx Hidx) as Hlow.
    clear Hidx; induction Hlow as [|x l Hx Hl IH]; [reflexivity|].
    simpl. rewrite IH.
    assert (Hm : matches_search keywords ty x = false).
    { unfold matches_search.
      destruct (forallb (fun keyword => str_contains keyword (e_keywords x)) keywords) eqn:Hall;
        [|reflexivity].
      rewrite forallb_forall in Hall.
      pose proof (str_contains_exists is_upper k (e_keywords x) (Hall k Hin) Hup) as Hx'.
      rewrite <- Hx, lower_has_no_upper in Hx'. discriminate. }
    now rewrite Hm. }
  now rewrite Hf.
Qed.

(** The command words: the pieces of the message between separators, each
    non-empty and free of separators, together spelling the message with
    its separators removed. *)
Theorem command_tokens_split (message : string) :
  Forall (fun t => t <> EmptyString /\ str_forall (fun c => negb (is_token_sep c)) t = true)
         (command_tokens message) /\
  concat_str (command_tokens message) = str_filter (fun c => negb (is_token_sep c)) message.
Proof.
  unfold command_tokens.
  destruct (split_pieces_spec EmptyString false message eq_refl) as [Hf Hc].
  destruct (tokens_filter _ Hf) as [Hf' Hc'].
  split; [exact Hf'|]. rewrite Hc', Hc. reflexivity.
Qed.


(** The references collected from a message contain no lower-case ASCII
    letter: the message is upper-cased before the patterns are applied. *)
Theorem collected_references_upper_case (p : post) (without_brackets : bool) :
  Forall (fun r => str_forall (fun c => negb (is_lower_c c)) r = true)
         (collect_references_from_message p without_brackets).
Proof.
  unfold collect_references_from_message.
  pose proof (upper_has_no_lower (p_message p)) as Hup.
  apply Forall_app; split.
  - destruct without_brackets; [|constructor].
    apply Forall_forall. intros r Hr. apply in_map_iff in Hr as [cs [<- Hcs]].
    apply group_or_empty_forall.
    exact (proj1 (Forall_forall _ _) (finditer_fuel_forall _ _ _ _ Hup) cs Hcs).
  - apply Forall_forall. intros r Hr. apply in_map_iff in Hr as [cs [<- Hcs]].
    apply group_or_empty_forall.
    exact (proj1 (Forall_forall _ _) (finditer_fuel_forall _ _ _ _ Hup) cs Hcs).
Qed.

(** The four successive replacements of escape_text escape each of [[],
    [)], [(], [)] exactly once: the backslashes one pass inserts are not
    touched by the later ones. *)
Theorem escape_text_per_char (text : string) :
  escape_text text = str_flat_map escape_char text.
Proof.
  induction text as [|c t IH]; [reflexivity|].
  change (String c t) with (String c EmptyString +++ t).
  rewrite escape_text_app, escape_text_char, IH. reflexivity.
Qed.

(** Splitting on a separator and joining with it gives the text back. *)
Theorem join_split_on (sep s : string) : join sep (split_on sep s) = s.
Proof. unfold split_on. apply join_split_on_acc. Qed.

(** An author field naming at most two authors is shown unchanged. *)
Theorem get_authors_at_most_two (inf : info) (a : string) :
  i_author inf = Some a -> List.length (split_on ", " a) <= 2 ->
  get_authors inf = Ok a.
Proof.
  intros Ha Hlen. unfold get_authors. rewrite Ha. simpl.
  apply Nat.leb_le in Hlen. rewrite Hlen, join_split_on. reflexivity.
Qed.

(** A subgroup field that names no known subgroup is shown unchanged. *)
Theorem get_audience_unknown_subgroups (inf : info) (s : string) :
  i_subgroup inf = Some s ->
  Forall (fun g => dget g subgroup_map = None) (split_on ", " s) ->
  get_audience inf = Ok s.
Proof.
  intros Hs Hall. unfold get_audience. rewrite Hs. simpl.
  rewrite (map_ext_in translate_subgroup (fun g => g)), map_id, join_split_on; [reflexivity|].
  intros g Hg. unfold translate_subgroup.
  now rewrite (proj1 (Forall_forall _ _) Hall g Hg).
Qed.

Lemma search_uppercase_keyword_finds_nothing_witness :
  rebuild_search_index c2_index = Ok c2_search_index /\
  search c2_search_index ["Concepts"] None = [].
Proof.
  assert (H : rebuild_search_index c2_index = Ok c2_search_index) by (vm_compute; reflexivity).
  split; [exact H|].
  apply (search_uppercase_keyword_finds_nothing c2_index c2_search_index ["Concepts"] None "Concepts").
  - exact H.
  - left; reflexivity.
  - reflexivity.
Defined.

Lemma get_authors_at_most_two_witness :
  get_authors (sample_paper "Rev 0") = Ok "A. Author" /\
  get_authors (mk_info None None (Some "A. Author, B. Author") None None None None None None None None)
  = Ok "A. Author, B. Author".
Proof.
  split.
  - apply (get_authors_at_most_two (sample_paper "Rev 0") "A. Author"); [reflexivity|vm_compute; lia].
  - apply (get_authors_at_most_two _ "A. Author, B. Author"); [reflexivity|vm_compute; lia].
Defined.

Lemma get_audience_unknown_subgroups_witness :
  get_audience (mk_info None None None None None None (Some "SG1, SG6") None None None None)
  = Ok "SG1, SG6".
Proof.
  apply (get_audience_unknown_subgroups _ "SG1, SG6"); [reflexivity|].
  vm_compute. repeat constructor.
Defined.

(** ** Further properties: where the bot replies *)


Lemma replies_app (a b : list event) : replies (a ++ b) = replies a ++ replies b.
Proof. unfold replies. apply flat_map_app. Qed.

Lemma subseq_nil_l {A} (l : list A) : subseq [] l.
Proof. induction l; constructor; assumption. Qed.

Lemma quiet_one {A} (p : post) (m : M A) : quiet m -> one_reply p m.
Proof. now left. Qed.

Lemma mbind_quiet {A B} (m : M A) (k : A -> M B) :
  quiet m -> (forall a, quiet (k a)) -> quiet (mbind m k).
Proof.
  unfold quiet, mbind. intros Hm Hk. destruct (snd m); simpl; [|exact Hm].
  rewrite replies_app, Hm, Hk. reflexivity.
Qed.

Lemma mbind_quiet_one {A B} (p : post) (m : M A) (k : A -> M B) :
  quiet m -> (forall a, one_reply p (k a)) -> one_reply p (mbind m k).
Proof.
  unfold one_reply, quiet, mbind. intros Hm Hk. destruct (snd m) as [a|x]; simpl.
  - rewrite replies_app, Hm. simpl. exact (Hk a).
  - left. exact Hm.
Qed.

Lemma try_keyerror_one {A} (p : post) (m h : M A) :
  one_reply p m -> one_reply p h -> one_reply p (try_keyerror m h).
Proof.
  unfold try_keyerror. intros Hm Hh. destruct (snd m) as [a|x] eqn:Hs; [exact Hm|].
  destruct x; try exact Hm.
  destruct Hm as [Hq|[_ [a Ha]]]; [|congruence].
  unfold one_reply, quiet in *. simpl. rewrite replies_app, Hq. exact Hh.
Qed.

Lemma try_keyerror_quiet {A} (m h : M A) : quiet m -> quiet h -> quiet (try_keyerror m h).
Proof.
  unfold try_keyerror, quiet. intros Hm Hh. destruct (snd m) as [a|x]; [exact Hm|].
  destruct x; try exact Hm. simpl. rewrite replies_app, Hm, Hh. reflexivity.
Qed.

Lemma lift_quiet {A} (r : result A) : quiet (lift r).
Proof. reflexivity. Qed.

Lemma ret_quiet {A} (a : A) : quiet (ret a).
Proof. reflexivity. Qed.

Lemma raise_quiet {A} (x : exn) : quiet (raise (A := A) x).
Proof. reflexivity. Qed.

Lemma print_quiet (l : string) : quiet (emit (EPrint l)).
Proof. reflexivity. Qed.

Lemma reply_to_one (p : post) (s : string) :
  p_root_id p = EmptyString -> one_reply p (reply_to p s).
Proof.
  intro Hr. right. unfold reply_to, mbind. simpl. rewrite Hr. simpl.
  split; [reflexivity|]. now exists tt.
Qed.


Lemma paper_reply_components_quiet (e : env) (refs : list string) :
  quiet (paper_reply_components e refs).
Proof.
  induction refs as [|r t IH]; simpl; [apply ret_quiet|].
  apply mbind_quiet; [|intro; apply mbind_quiet; [exact IH|intro; apply ret_quiet]].
  unfold paper_reply_component. apply try_keyerror_quiet; [apply lift_quiet|].
  apply mbind_quiet; [apply print_quiet|intro; apply ret_quiet].
Qed.

Lemma handle_paper_request_one (e : env) (tokens : list string) (p : post) (u : user) (b : bool) :
  p_root_id p = EmptyString -> one_reply p (handle_paper_request e tokens p u b).
Proof.
  intro Hr. unfold handle_paper_request.
  apply mbind_quiet_one; [apply paper_reply_components_quiet|intro; now apply reply_to_one].
Qed.

Lemma do_search_impl_one (e : env) (keywords : list string) (ty : option string)
  (p : post) (u : user) :
  p_root_id p = EmptyString -> one_reply p (do_search_impl e keywords ty p u).
Proof.
  intro Hr. unfold do_search_impl.
  destruct (_ =? 0); [now apply reply_to_one|].
  apply try_keyerror_one.
  - apply mbind_quiet_one; [apply lift_quiet|intro; now apply reply_to_one].
  - apply mbind_quiet_one; [apply print_quiet|intro; now apply reply_to_one].
Qed.

Lemma handle_bot_command_one (e : env) (p : post) (u : user) :
  p_root_id p = EmptyString -> one_reply p (handle_bot_command e p u).
Proof.
  intro Hr. unfold handle_bot_command.
  destruct (String.eqb _ "help").
  { unfold do_help. apply mbind_quiet_one; [apply print_quiet|intro; now apply reply_to_one]. }
  destruct (String.eqb _ "kill").
  { unfold do_kill. apply quiet_one.
    destruct (negb _); [apply print_quiet|].
    apply mbind_quiet; [apply print_quiet|intro; apply raise_quiet]. }
  destruct (String.eqb _ "search"); [|now apply handle_paper_request_one].
  unfold do_search.
  apply mbind_quiet_one; [reflexivity|intros _].
  apply mbind_quiet_one; [apply lift_quiet|intro t2].
  destruct (String.eqb t2 "papers"); [now apply do_search_impl_one|].
  apply mbind_quiet_one; [apply lift_quiet|intro t3].
  destruct (String.eqb t3 "issues"); [now apply do_search_impl_one|].
  apply mbind_quiet_one; [apply lift_quiet|intro t4].
  destruct (String.eqb t4 "everything"); now apply do_search_impl_one.
Qed.

Lemma log_request_to_bot_quiet (e : env) (p : post) (u : user) :
  quiet (log_request_to_bot e p u).
Proof. unfold log_request_to_bot. destruct (find _ _); reflexivity. Qed.

Lemma filter_posts_not_in_thread (e : env) (p : post) :
  filter_posts e p = true -> p_root_id p = EmptyString.
Proof.
  unfold filter_posts, is_message_in_thread. intro H.
  apply negb_true_iff, orb_false_iff in H as [_ H].
  apply negb_false_iff, String.eqb_eq in H. exact H.
Qed.


(** Each post the bot creates in a poll cycle answers a post of the batch
    that passed filter_posts: in the post's channel, as a thread under it,
    at most one reply per post, in the order of the batch. *)
Theorem replies_answer_filtered_posts (e : env) (posts : list post) :
  exists answered,
    subseq answered (filter (filter_posts e) posts) /\
    replies (fst (run_once e posts)) = map (fun p => (p_channel_id p, p_id p)) answered.
Proof.
  unfold run_once. induction posts as [|p rest IH]; simpl.
  - exists []. split; [constructor|reflexivity].
  - destruct (filter_posts e p) eqn:Hf; simpl; [|exact IH].
    pose proof (filter_posts_not_in_thread e p Hf) as Hr.
    destruct IH as [ans [Hsub Hrep]].
    set (u := env_get_user e (p_user_id p)).
    set (lg := if str_contains (mention e) (p_message p) then log_request_to_bot e p u else ret tt).
    assert (Hlg : quiet lg)
      by (unfold lg; destruct (str_contains _ _); [apply log_request_to_bot_quiet|apply ret_quiet]).
    unfold mbind at 1. destruct (snd lg) as [[]|x]; simpl.
    2: { exists []. split; [apply subseq_nil_l|exact Hlg]. }
    rewrite replies_app, Hlg. simpl.
    destruct (message_starts_with_mentioning_bot e p).
    + destruct (handle_bot_command_one e p u Hr) as [Hq|[Hq _]].
      * exists []. split; [apply subseq_nil_l|exact Hq].
      * exists [p]. split; [apply subseq_take, subseq_nil_l|exact Hq].
    + destruct (handle_paper_request_one e [] p u false Hr) as [Hq|[Hq [a Ha]]];
        unfold mbind; destruct (snd (handle_paper_request e [] p u false)) eqn:Hs; simpl.
      * exists ans. rewrite replies_app, Hq. split; [apply subseq_skip, Hsub|exact Hrep].
      * exists []. split; [apply subseq_nil_l|exact Hq].
      * exists (p :: ans). rewrite replies_app, Hq, Hrep.
        split; [apply subseq_take, Hsub|reflexivity].
      * congruence.
Qed.

(** ** Further properties: channel list, dates and search replies *)

Lemma dedup_incl (l : list string) (x : string) : In x (dedup l) -> In x l.
Proof.
  induction l as [|y t IH]; simpl; [auto|].
  destruct (existsb (String.eqb y) t); simpl; [auto|]. intros [->|H]; auto.
Qed.

Lemma join_actions_ok (channels : list channel) (members : string -> nat) (joined : list string) :
  (forall x, In x joined -> In x (map c_id channels)) ->
  snd (join_actions channels members joined) = Ok tt.
Proof.
  induction joined as [|x t IH]; intro Hin; [reflexivity|]. simpl.
  destruct (find (fun c => String.eqb (c_id c) x) channels) eqn:Hf.
  - unfold mbind. simpl. apply IH. intros y Hy. apply Hin. now right.
  - exfalso. destruct (proj1 (in_map_iff c_id channels x) (Hin x (or_introl eq_refl))) as [c [Hc Hcin]].
    pose proof (find_none _ _ Hf c Hcin) as Hn. simpl in Hn.
    rewrite Hc, String.eqb_refl in Hn. discriminate.
Qed.

Lemma leave_actions_ok (left : list string) : snd (leave_actions left) = Ok tt.
Proof. induction left as [|x t IH]; [reflexivity|]. simpl. unfold mbind. simpl. exact IH. Qed.


(** The bot's updated channel list is what the teams give, and reporting
    the joined and left channels never raises: each joined id is looked up
    in the updated list, where it was taken from. *)
Theorem read_channel_list_never_raises (order : list string -> list string)
  (channels_for : string -> list channel) (teams : list string) (members : string -> nat)
  (old_channels : list channel) :
  (forall l x, In x (order l) -> In x l) ->
  fst (read_channel_list order channels_for teams members old_channels) = flat_map channels_for teams /\
  snd (snd (read_channel_list order channels_for teams members old_channels)) = Ok tt.
Proof.
  intro Hord. split; [reflexivity|]. unfold read_channel_list, do_channel_join_leave_actions. simpl.
  unfold mbind. rewrite join_actions_ok; [apply leave_actions_ok|].
  intros x Hx. apply Hord, dedup_incl, filter_In in Hx as [Hx _]. exact Hx.
Qed.


Lemma read_channel_list_never_raises_witness :
  let chans := fun team => if String.eqb team "t1"
                           then [mk_channel "c1" "O" "Town Square"; mk_channel "c2" "O" ""]
                           else [] in
  fst (read_channel_list (fun l => l) chans ["t1"] (fun _ => 3) [mk_channel "c0" "O" "Old"])
  = flat_map chans ["t1"] /\
  snd (snd (read_channel_list (fun l => l) chans ["t1"] (fun _ => 3) [mk_channel "c0" "O" "Old"]))
  = Ok tt.
Proof.
  intro chans. apply read_channel_list_never_raises. intros l x H. exact H.
Defined.

Lemma search_lines_fold (e : env) (l : list search_entry) (lines : list string) :
  Forall2 (fun r s => format_result e r = Ok s) l lines ->
  fold_right
    (fun r acc =>
       kv <- fetch_info_for (env_feed e) (e_id r) ;;
       s <- create_and_format (fst kv) (snd kv) ;;
       rest <- acc ;;
       Ok (("1. " +++ s) :: rest))
    (Ok []) l = Ok (map (fun s => "1. " +++ s) lines).
Proof.
  induction 1 as [|r s l lines Hr Hl IH]; [reflexivity|]. simpl.
  unfold format_result in Hr.
  destruct (fetch_info_for (env_feed e) (e_id r)) as [kv|x]; simpl in *; [|discriminate].
  rewrite Hr. simpl. rewrite IH. reflexivity.
Qed.

Lemma search_header (n : nat) (a : string) :
  (if negb (n =? Nat.min 15 n)
   then a +++ ", showing most recent " +++ str_of_nat (Nat.min 15 n) else a)
  = a +++ (if 15 <? n then ", showing most recent 15" else "").
Proof.
  destruct (15 <? n) eqn:H.
  - apply Nat.ltb_lt in H.
    replace (Nat.min 15 n) with 15 by lia.
    replace (n =? 15) with false by (symmetry; apply Nat.eqb_neq; lia).
    reflexivity.
  - apply Nat.ltb_ge in H.
    replace (Nat.min 15 n) with n by lia.
    rewrite Nat.eqb_refl. symmetry. apply str_app_nil.
Qed.

(** A search with results whose first fifteen all format replies with the
    number of results and the first fifteen of them, most recent first, one
    per line; the reply says that it shows the most recent 15 exactly when
    there are more than fifteen. *)
Theorem search_reply_shows_at_most_15 (e : env) (keywords : list string)
  (ty : option string) (p : post) (u : user) (lines : list string) :
  let results := search (pi_search_index (env_paper_index e)) keywords ty in
  1 <= List.length results ->
  Forall2 (fun r s => format_result e r = Ok s) (firstn 15 results) lines ->
  do_search_impl e keywords ty p u =
  reply_to p (str_of_nat (List.length results) +++ " results for your query"
              +++ (if 15 <? List.length results then ", showing most recent 15" else "")
              +++ ":" +++ String (chr 10) EmptyString
              +++ join (String (chr 10) EmptyString) (map (fun s => "1. " +++ s) lines)).
Proof.
  intros results Hn Hlines. unfold do_search_impl. fold results.
  assert (Hdisp : (if 15 <? List.length results then firstn 15 results else results)
                  = firstn 15 results).
  { destruct (15 <? List.length results) eqn:H; [reflexivity|].
    apply Nat.ltb_ge in H. symmetry. now apply firstn_all2. }
  cbv zeta. rewrite Hdisp, length_firstn, search_header.
  destruct (Nat.min 15 (List.length results) =? 0) eqn:H0.
  { apply Nat.eqb_eq in H0. lia. }
  unfold try_keyerror, mbind, lift. rewrite (search_lines_fold e _ _ Hlines).
  cbn [fst snd app]. rewrite <- !str_app_assoc.
  reflexivity.
Qed.

Lemma search_reply_shows_at_most_15_witness :
  let e := sample_env (fun l => l) in
  let p := sample_post "alice-id" "@paperbot search papers" in
  let results := search (pi_search_index (env_paper_index e)) [] (Some "paper") in
  do_search_impl e [] (Some "paper") p alice =
  reply_to p (str_of_nat (List.length results) +++ " results for your query"
              +++ (if 15 <? List.length results then ", showing most recent 15" else "")
              +++ ":" +++ String (chr 10) EmptyString
              +++ join (String (chr 10) EmptyString)
                    (map (fun s => "1. " +++ s)
                       [":rolled_up_newspaper: | [\[P1234\] Rev 0](https://wg21.link/p1234) by A. Author (2020-01-02)"])).
Proof.
  intros e p results.
  apply (search_reply_shows_at_most_15 e [] (Some "paper") p alice).
  - vm_compute. lia.
  - vm_compute. repeat constructor.
Defined.

(** An issue record that has a [github_url] is never formatted: the issue
    formatter calls [_github_component], whose [github_issue_no_regex] only
    the paper formatter defines, so formatting raises AttributeError. *)
Theorem issue_with_github_url_not_formatted (reference : string) (inf : info)
  (title submitter long_link url : string) :
  i_type inf = Some "issue" -> i_title inf = Some title ->
  i_submitter inf = Some submitter -> i_long_link inf = Some long_link ->
  i_github_url inf = Some url ->
  create_and_format reference (Some (SRecord inf)) = Err AttributeError.
Proof.
  intros Hty Ht Hs Hl Hg. unfold create_and_format. rewrite Hty. simpl.
  unfold issue_paper_link_component, github_component. rewrite Ht, Hs, Hl, Hg. reflexivity.
Qed.

Lemma issue_with_github_url_not_formatted_witness :
  create_and_format "CWG1" (Some (SRecord issue_with_github)) = Err AttributeError.
Proof.
  apply (issue_with_github_url_not_formatted "CWG1" issue_with_github
           "Lookup of a name" "A. Submitter" "https://wg21.link/cwg1"
           "https://github.com/cplusplus/CWG/issues/1"); reflexivity.
Defined.
